(** * new-api: build script (build.mjs) and launcher script

    A shallow embedding of the two Node.js scripts of the repository:
    the build orchestrator [build.mjs] (module [Build]) and the launcher
    that loads [.env] and starts the platform binary (module [Launcher]).

    Conventions of the embedding.
    - A JavaScript string is the list of its UTF-16 code units ([jsstring]);
      literals are written as in the source and decoded by [u].
    - A JavaScript number that the scripts compute with (the progress value)
      is an IEEE 754 binary64 float ([PrimFloat]); exit codes are integers.
    - A plain JavaScript object used as a dictionary is a [gmap] of its own
      properties.
    - The outside world (file system, child processes) is a record of
      oracles; every effect the scripts perform is an event of a trace.
    - The values of [process.platform] and [process.arch] are the two
      enumerations of module [Node].

    What the embedding leaves out or assumes.
    - Of [build.mjs] the pipeline is embedded ([buildWeb], [buildBackend],
      [buildAll], [crossCompile] and everything they call); the command
      front end ([main], [showMenu]) and [clean], [cleanAll], [run],
      [showMirrors], [showVersion] are not. [process.env] is the
      environment as the pipeline finds it, after [setupMirrorEnv].
    - The line a progress bar renders is kept as the state of the bar: its
      text also depends on the clock.
    - Every child that [spawn] returns ends, with a ['close'] or an
      ['error'] event.
    - In [Build] the calls into Node that can throw may throw:
      [execSync] (when the command fails), [readFileSync], [writeFileSync],
      [mkdirSync] and [spawn]. [existsSync] never throws.
    - In [Launcher] the calls into Node return: a run in which
      [readFileSync] or [spawn] throws ends with an uncaught exception and
      is not among the runs of the embedding. *)

From Stdlib Require Import ZArith NArith List String Ascii Bool Lia.
From Stdlib Require Import PrimFloat DecimalString.
From stdpp Require Import gmap.

Set Warnings "-inexact-float".

Local Open Scope N_scope.

(* ===================================================================== *)
(** ** JavaScript strings *)
(* ===================================================================== *)

Module JS.

(** A string is a sequence of UTF-16 code units. *)
Abbreviation jsstring := (list N).

(** *** Literals: UTF-8 text of this file to UTF-16 code units *)

Definition utf16_of_code_point (cp : N) : list N :=
  if cp <? 65536 then [cp]
  else let c := cp - 65536 in
       [55296 + N.shiftr c 10; 56320 + N.land c 1023].

(** [decode acc need bytes]: [need] continuation bytes are still expected
    for the code point accumulated in [acc]. *)
Fixpoint decode (acc : N) (need : nat) (bytes : list N) : list N :=
  match bytes with
  | [] => []
  | b :: rest =>
    match need with
    | O =>
      if b <? 128 then b :: decode 0 O rest
      else if b <? 192 then 65533 :: decode 0 O rest
      else if b <? 224 then decode (N.land b 31) 1%nat rest
      else if b <? 240 then decode (N.land b 15) 2%nat rest
      else if b <? 248 then decode (N.land b 7) 3%nat rest
      else 65533 :: decode 0 O rest
    | S n =>
      let acc' := N.lor (N.shiftl acc 6) (N.land b 63) in
      match n with
      | O => utf16_of_code_point acc' ++ decode 0 O rest
      | S _ => decode acc' n rest
      end
    end
  end.

Definition bytes_of (s : string) : list N :=
  List.map N_of_ascii (list_ascii_of_string s).

Definition u (s : string) : jsstring := decode 0 O (bytes_of s).

(** *** Characters *)

Definition LF : N := 10.
Definition CR : N := 13.
Definition DQUOTE : N := 34.  (* the double quote *)
Definition SQUOTE : N := 39.  (* the single quote *)
Definition HASH : N := 35.
Definition COLON : N := 58.
Definition EQUALS : N := 61.
Definition SLASH : N := 47.

(** ECMAScript LineTerminator. *)
Definition is_line_terminator (c : N) : bool :=
  (c =? 10) || (c =? 13) || (c =? 8232) || (c =? 8233).

(** ECMAScript WhiteSpace and LineTerminator: what [String.prototype.trim]
    strips and what the regular-expression class [\s] matches. *)
Definition is_space (c : N) : bool :=
  ((9 <=? c) && (c <=? 13)) || (c =? 32) || (c =? 160) || (c =? 5760)
  || ((8192 <=? c) && (c <=? 8202))
  || (c =? 8232) || (c =? 8233) || (c =? 8239) || (c =? 8287)
  || (c =? 12288) || (c =? 65279).

(** *** String methods *)

Definition eqb (a b : jsstring) : bool := bool_decide (a = b).

Definition is_empty (s : jsstring) : bool :=
  match s with [] => true | _ => false end.

Fixpoint startsWith (s p : jsstring) {struct p} : bool :=
  match p with
  | [] => true
  | c :: p' =>
    match s with
    | [] => false
    | d :: s' => (c =? d) && startsWith s' p'
    end
  end.

Definition endsWith (s p : jsstring) : bool :=
  startsWith (rev s) (rev p).

Fixpoint includes (s p : jsstring) : bool :=
  startsWith s p ||
  match s with
  | [] => false
  | _ :: s' => includes s' p
  end.

Fixpoint trimStart (s : jsstring) : jsstring :=
  match s with
  | [] => []
  | c :: s' => if is_space c then trimStart s' else s
  end.

Definition trim (s : jsstring) : jsstring :=
  rev (trimStart (rev (trimStart s))).

(** [s.split(sep)] where the separator matches exactly one character (a
    one-character string, or a regular-expression character class [sep]):
    at least one piece. *)
Fixpoint split_by (sep : N -> bool) (s : jsstring) : list jsstring :=
  match s with
  | [] => [[]]
  | x :: s' =>
    if sep x then [] :: split_by sep s'
    else match split_by sep s' with
         | piece :: pieces => (x :: piece) :: pieces
         | [] => [[x]]
         end
  end.

Definition split (c : N) (s : jsstring) : list jsstring :=
  split_by (N.eqb c) s.

(** [arr.pop()]: the last element, [undefined] on an empty array. *)
Definition pop {A} (l : list A) : option A := last l.

(** [String(n)] for an integer. *)
Definition of_int (z : Z) : jsstring :=
  List.map N_of_ascii
    (list_ascii_of_string (DecimalString.NilZero.string_of_int (Z.to_int z))).

(** [a || b] where [a] is a string or [undefined]: the empty string and
    [undefined] are falsy. *)
Definition or_else (a : option jsstring) (b : jsstring) : jsstring :=
  match a with
  | Some (c :: s) => c :: s
  | _ => b
  end.

Definition falsy (a : option jsstring) : bool :=
  match a with
  | Some (_ :: _) => false
  | _ => true
  end.

(** [s.slice(from, to)]; a negative index counts from the end. *)
Definition slice_index (len i : Z) : Z :=
  if (i <? 0)%Z then Z.max (len + i) 0 else Z.min i len.

Definition slice (s : jsstring) (from to : Z) : jsstring :=
  let len := Z.of_nat (length s) in
  let a := slice_index len from in
  let b := slice_index len to in
  take (Z.to_nat (b - a)) (drop (Z.to_nat a) s).

(** The longest prefix whose characters satisfy [p], and the rest. *)
Fixpoint span (p : N -> bool) (s : jsstring) : jsstring * jsstring :=
  match s with
  | [] => ([], [])
  | c :: s' =>
    if p c then let (a, b) := span p s' in (c :: a, b) else ([], s)
  end.

(** An unanchored regular expression tries each start position from the
    left; [m] is the match attempt at one position. *)
Fixpoint first_match {A} (m : jsstring -> option A) (s : jsstring) : option A :=
  match m s with
  | Some r => Some r
  | None =>
    match s with
    | [] => None
    | _ :: s' => first_match m s'
    end
  end.

(** [prefix] followed by one or more characters of the class [cls]
    (greedy): the capture group of [/prefix([cls]+)/] at one position. *)
Definition prefix_then_class (prefix : jsstring) (cls : N -> bool)
    (s : jsstring) : option jsstring :=
  if startsWith s prefix then
    match fst (span cls (drop (length prefix) s)) with
    | [] => None
    | g => Some g
    end
  else None.

(** [s.repeat(n)] and [s.padEnd(n, c)] for a one-character [c]. *)
Definition repeat_str (s : jsstring) (n : nat) : jsstring :=
  concat (replicate n s).

Definition padEnd (s : jsstring) (n : nat) (c : N) : jsstring :=
  s ++ replicate (n - length s) c.

(** [Math.min(a, b)] on numbers. *)
Definition Math_min (a b : float) : float :=
  if PrimFloat.is_nan a then a
  else if PrimFloat.is_nan b then b
  else if PrimFloat.ltb b a then b else a.

End JS.

Import JS.


(* ===================================================================== *)
(** ** The Node.js host *)
(* ===================================================================== *)

Module Node.

(** The values of [process.platform]. *)
Inductive Platform :=
  Aix | Android | Darwin | FreeBSD | Linux | OpenBSD | SunOS | Win32.

(** The values of [process.arch]. *)
Inductive Arch :=
  Arm | Arm64 | Ia32 | Loong64 | Mips | Mipsel | Ppc | Ppc64 | Riscv64
  | S390 | S390x | X64.

Definition platform_name (p : Platform) : jsstring :=
  match p with
  | Aix => u "aix" | Android => u "android" | Darwin => u "darwin"
  | FreeBSD => u "freebsd" | Linux => u "linux" | OpenBSD => u "openbsd"
  | SunOS => u "sunos" | Win32 => u "win32"
  end.

Definition arch_name (a : Arch) : jsstring :=
  match a with
  | Arm => u "arm" | Arm64 => u "arm64" | Ia32 => u "ia32"
  | Loong64 => u "loong64" | Mips => u "mips" | Mipsel => u "mipsel"
  | Ppc => u "ppc" | Ppc64 => u "ppc64" | Riscv64 => u "riscv64"
  | S390 => u "s390" | S390x => u "s390x" | X64 => u "x64"
  end.

(** A process environment, and any object with string values. *)
Abbreviation dict := (gmap (list N) (list N)).

(** [obj[key] = value] on a plain object: every key creates or updates
    an own property, except [__proto__], which is an accessor inherited
    from [Object.prototype] whose setter ignores a string. *)
Definition obj_set (obj : dict) (key value : jsstring) : dict :=
  if JS.eqb key (u "__proto__") then obj else <[key := value]> obj.

End Node.

Import Node.

(* ===================================================================== *)
(** ** The build script, build.mjs *)
(* ===================================================================== *)

Module Build.

(** *** Children and the host *)

(** The options a child process is started with. *)
Record SpawnOptions := { cwd : jsstring; env : dict }.

(** The optional [options] argument of the runners and of [execSync]. *)
Record Options := { opt_cwd : option jsstring; opt_env : option dict }.

Definition no_options : Options := {| opt_cwd := None; opt_env := None |}.

(** What happens while a child runs: a chunk arrives on its stdout or
    stderr, or the [setInterval] timer of the runner fires. *)
Inductive Stream := Stdout | Stderr.

Inductive Activity :=
| Data (from : Stream) (text : jsstring)
| Tick.

(** How a child ends: a ['close'] event carrying its exit code ([null]
    when a signal killed it), or an ['error'] event because it could not
    be spawned, which Node may let a ['close'] event follow. Every child
    is taken to end; one that never does leaves the promise pending. *)
Inductive Ending :=
| Closes (code : option Z)
| Errors (message : jsstring) (close : option (option Z)).

Record ChildRun := { activity : list Activity; ending : Ending }.

(** The world outside the script. [None] is a thrown exception: of
    [readFileSync], [writeFileSync] and [mkdirSync] when the file system
    refuses, of [execSync] when the command fails, of [spawn] when no child
    can be created (an argument Node rejects, or an error of the system
    that Node throws rather than emits). [existsSync] never throws. *)
Record Host := {
  W : Type;
  process_platform : Platform;              (* process.platform *)
  process_arch : Arch;                      (* process.arch *)
  process_env : dict;                       (* process.env *)
  dirname : jsstring;                       (* __dirname *)
  join : jsstring -> jsstring -> jsstring;  (* path.join *)
  existsSync : jsstring -> W -> bool;
  readFileSync : jsstring -> W -> option jsstring;
  writeFileSync : jsstring -> jsstring -> W -> option W;
  mkdirSync : jsstring -> W -> option W;
  execSync : jsstring -> Options -> W -> option jsstring * W;
  spawn : jsstring -> SpawnOptions -> W -> option (ChildRun * W);
}.

(** *** Events *)

(** What the script shows and does; [ExecSync], [Spawn], [WriteFile] and
    [Mkdir] are the calls, whether they return or throw. The two ghost
    events mark the entry and the return of [buildBackend]; the script
    itself emits nothing for them, and a call that throws has no return.
    [Render] stands for the line [ProgressBar.render]
    writes: its text is a function of the bar and of the clock, and only
    the bar is kept. *)
Inductive display :=
| ConsoleLog (text : jsstring)
| StdoutWrite (text : jsstring)
| Render (current total : float) (status : jsstring).

Inductive event :=
| Display (d : display)
| BackendCalled (targetOS : Platform) (targetArch : Arch)  (* ghost *)
| BackendReturned (result : bool)                          (* ghost *)
| ExecSync (cmd : jsstring) (options : Options)
| Spawn (cmd : jsstring) (options : SpawnOptions)
| WriteFile (path content : jsstring)
| Mkdir (path : jsstring).

(** *** Constants *)

Definition ESC : N := 27.

Module colors.
Definition reset := ESC :: u "[0m".
Definition bright := ESC :: u "[1m".
Definition red := ESC :: u "[31m".
Definition green := ESC :: u "[32m".
Definition yellow := ESC :: u "[33m".
Definition blue := ESC :: u "[34m".
Definition cyan := ESC :: u "[36m".
End colors.

Module mirrors.
Definition npm := u "https://registry.npmmirror.com".
Definition goproxy := u "https://goproxy.cn,https://goproxy.io,direct".
Definition gosumdb := u "sum.golang.google.cn".
Definition nodeMirror := u "https://npmmirror.com/mirrors/node/".
Definition electronMirror := u "https://npmmirror.com/mirrors/electron/".
End mirrors.

(** *** The progress bar *)

Record ProgressBar := {
  total : float;
  current : float;
  status : jsstring;
}.

Definition ProgressBar_new (status : jsstring) : ProgressBar :=
  {| total := 100; current := 0; status := status |}.

Definition render (bar : ProgressBar) : list display :=
  [Render (current bar) (total bar) (status bar)].

Definition update (bar : ProgressBar) (current : float) (status : jsstring)
    : ProgressBar * list display :=
  let bar := {| total := total bar; current := current;
                status := if is_empty status then Build.status bar else status |} in
  (bar, render bar).

Definition complete (bar : ProgressBar) (message : jsstring)
    : ProgressBar * list display :=
  let bar := {| total := total bar; current := total bar; status := message |} in
  (bar, render bar ++ [ConsoleLog []]).

Definition clear : list display :=
  [StdoutWrite ([CR] ++ repeat_str (u " ") 100 ++ [CR])].

Definition log_line (color tag msg : jsstring) : display :=
  ConsoleLog (color ++ tag ++ colors.reset ++ u " " ++ msg).

Module log.
Definition info (msg : jsstring) := log_line colors.blue (u "[INFO]") msg.
Definition success (msg : jsstring) := log_line colors.green (u "[SUCCESS]") msg.
Definition warn (msg : jsstring) := log_line colors.yellow (u "[WARN]") msg.
Definition error (msg : jsstring) := log_line colors.red (u "[ERROR]") msg.
Definition title (msg : jsstring) :=
  ConsoleLog ([LF] ++ colors.cyan ++ colors.bright ++ u "=== " ++ msg
              ++ u " ===" ++ colors.reset ++ [LF]).
End log.

(** *** The runner of [execWithProgress] *)

(** The variables the handlers of one invocation close over. *)
Record Runner := {
  progress : ProgressBar;
  progressValue : float;
  lastStatus : jsstring;
  interval : bool;          (* the timer is set *)
  outputBuffer : jsstring;  (* execGoWithProgress only *)
}.

Definition Runner_new : Runner :=
  {| progress := ProgressBar_new (u "准备中...");
     progressValue := 0; lastStatus := []; interval := true;
     outputBuffer := [] |}.

Definition with_progress (r : Runner) (bar : ProgressBar) : Runner :=
  {| progress := bar; progressValue := progressValue r;
     lastStatus := lastStatus r; interval := interval r;
     outputBuffer := outputBuffer r |}.

Definition with_value (r : Runner) (v : float) (s : jsstring) : Runner :=
  {| progress := progress r; progressValue := v; lastStatus := s;
     interval := interval r; outputBuffer := outputBuffer r |}.

Definition clearInterval (r : Runner) : Runner :=
  {| progress := progress r; progressValue := progressValue r;
     lastStatus := lastStatus r; interval := false;
     outputBuffer := outputBuffer r |}.

Definition append_output (r : Runner) (text : jsstring) : Runner :=
  {| progress := progress r; progressValue := progressValue r;
     lastStatus := lastStatus r; interval := interval r;
     outputBuffer := outputBuffer r ++ text |}.

Definition not_colon (c : N) : bool := negb (c =? COLON).
Definition not_space (c : N) : bool := negb (is_space c).

(** One iteration of the [for] loop of [parseOutput]. *)
Definition classify_line (r : Runner) (line : jsstring) : Runner :=
  let v := progressValue r in
  let s := lastStatus r in
  if includes line (u "reify:") then
    let s := match first_match (prefix_then_class (u "reify:") not_colon) line with
             | Some g => slice (trim g) 0 25
             | None => s
             end in
    with_value r (Math_min 95 (v + 0.5)) s
  else if includes line (u "timing") then
    with_value r (Math_min 95 (v + 0.3)) s
  else if includes line (u "added") || includes line (u "packages") then
    with_value r 98 (u "完成安装")
  else if includes line (u "idealTree") || includes line (u "buildIdeal") then
    with_value r (Math_min 30 (v + 2)) (u "解析依赖树...")
  else if includes line (u "diffTrees") then
    with_value r (Math_min 40 (v + 1)) (u "计算差异...")
  else if includes line (u "fetch") then
    with_value r (Math_min 80 (v + 0.2)) (u "下载包...")
  else r.

Definition parseOutput (r : Runner) (text : jsstring) : Runner * list display :=
  let lines := filter (fun l => l <> []) (split LF text) in
  let r := fold_left classify_line lines r in
  let (bar, out) := update (progress r) (progressValue r) (lastStatus r) in
  (with_progress r bar, out).

(** The [setInterval] callback; it no longer fires once cleared. *)
Definition on_tick (step : float) (idle : jsstring) (r : Runner)
    : Runner * list display :=
  if interval r && PrimFloat.ltb (progressValue r) 95 then
    let r := with_value r (progressValue r + step) (lastStatus r) in
    let (bar, out) :=
      update (progress r) (progressValue r)
             (if is_empty (lastStatus r) then idle else lastStatus r) in
    (with_progress r bar, out)
  else (r, []).

(** The ['close'] handler: the runner after it, what it shows, and the
    value it passes to [resolve]. *)
Definition on_close (r : Runner) (code : option Z)
    : Runner * list display * bool :=
  let r := clearInterval r in
  if bool_decide (code = Some 0%Z) then
    let (bar, out) := complete (progress r) (u "安装完成") in
    (with_progress r bar, out, true)
  else
    (r, clear ++ [log.error (u "安装失败")], false).

(** The ['error'] handler. *)
Definition on_error (r : Runner) (message : jsstring)
    : Runner * list display * bool :=
  let r := clearInterval r in
  (r, clear ++ [log.error (u "执行失败: " ++ message)], false).

Definition on_activity (r : Runner) (a : Activity) : Runner * list display :=
  match a with
  | Data _ text => parseOutput r text
  | Tick => on_tick 0.1 (u "安装中...") r
  end.

(** Handlers run one after the other on the event loop. *)
Fixpoint run_activity (handler : Runner -> Activity -> Runner * list display)
    (r : Runner) (acts : list Activity) : Runner * list display :=
  match acts with
  | [] => (r, [])
  | a :: acts' =>
    let (r, out) := handler r a in
    let (r, out') := run_activity handler r acts' in
    (r, out ++ out')
  end.

(** A promise takes the value of the first [resolve]; later calls do
    nothing. [run_ending] returns that value with everything shown. *)
Definition run_ending
    (on_close : Runner -> option Z -> Runner * list display * bool)
    (on_error : Runner -> jsstring -> Runner * list display * bool)
    (r : Runner) (e : Ending) : list display * bool :=
  match e with
  | Closes code =>
    let '(_, out, resolved) := on_close r code in (out, resolved)
  | Errors message close =>
    let '(r, out, resolved) := on_error r message in
    match close with
    | Some code =>
      let '(_, out', _) := on_close r code in (out ++ out', resolved)
    | None => (out, resolved)
    end
  end.

(** *** The runner of [execGoWithProgress] *)

Definition go_parseOutput (r : Runner) (text : jsstring) : Runner * list display :=
  let r := append_output r text in
  let v := progressValue r in
  let s := lastStatus r in
  let r :=
    if includes text (u "go: downloading") then
      let s :=
        match first_match (prefix_then_class (u "go: downloading ") not_space) text with
        | Some g =>
          or_else (option_map (fun seg => slice seg 0 25) (pop (split SLASH g)))
                  (u "下载模块...")
        | None => s
        end in
      with_value r (Math_min 90 (v + 2)) s
    else if includes text (u "go: finding") then
      with_value r (Math_min 30 (v + 5)) (u "解析模块...")
    else r in
  let (bar, out) :=
    update (progress r) (progressValue r)
           (if is_empty (lastStatus r) then u "处理中..." else lastStatus r) in
  (with_progress r bar, out).

Definition go_on_close (r : Runner) (code : option Z)
    : Runner * list display * bool :=
  let r := clearInterval r in
  if bool_decide (code = Some 0%Z) then
    let (bar, out) := complete (progress r) (u "完成") in
    (with_progress r bar, out, true)
  else
    (r, clear ++ (if is_empty (outputBuffer r) then []
                  else [ConsoleLog (outputBuffer r)]), false).

Definition go_on_activity (r : Runner) (a : Activity) : Runner * list display :=
  match a with
  | Data _ text => go_parseOutput r text
  | Tick => on_tick 0.2 (u "编译中...") r
  end.

(** *** The pipeline *)

Record Config := {
  rootDir : jsstring;
  webDir : jsstring;
  outputDir : jsstring;
  versionFile : jsstring;
}.

(** An entry of the [targets] array of [crossCompile]. *)
Record Target := { os : Platform; arch : Arch; desc : jsstring }.

(** How a step ends: it returns a value, or it throws. For an [async]
    function the two are its promise fulfilled and its promise rejected;
    [await] on a rejected promise throws. *)
Inductive Completion (A : Type) :=
| Returned (a : A)
| Thrown.
Arguments Returned {A} a.
Arguments Thrown {A}.

Section Pipeline.

Context (h : Host).

(** A step of the script: from a world to how the step ends, the world
    after, and the events of the step in order. *)
Record Out (A : Type) := {
  value : Completion A;
  world : W h;
  events : list event;
}.
Arguments value {A} o.
Arguments world {A} o.
Arguments events {A} o.

Definition M (A : Type) : Type := W h -> Out A.

#[export] Instance M_ret : MRet M := fun A a w =>
  {| value := Returned a; world := w; events := [] |}.

(** No function of the pipeline catches what a step it calls throws,
    except where a [try] is modelled by a fallible call ([fs_read],
    [exec_sync]): a throw ends every step around it. *)
#[export] Instance M_bind : MBind M := fun A B f m w =>
  let o := m w in
  match value o with
  | Returned a =>
    let o' := f a (world o) in
    {| value := value o'; world := world o'; events := events o ++ events o' |}
  | Thrown => {| value := Thrown; world := world o; events := events o |}
  end.

Definition show (ds : list display) : M unit := fun w =>
  {| value := Returned tt; world := w; events := map Display ds |}.

Definition ghost (e : event) : M unit := fun w =>
  {| value := Returned tt; world := w; events := [e] |}.

Definition fs_exists (path : jsstring) : M bool := fun w =>
  {| value := Returned (existsSync h path w); world := w; events := [] |}.

(** A read inside a [try]: [None] is the exception, handed to the
    [catch]. *)
Definition fs_read (path : jsstring) : M (option jsstring) := fun w =>
  {| value := Returned (readFileSync h path w); world := w; events := [] |}.

Definition fs_write (path content : jsstring) : M unit := fun w =>
  match writeFileSync h path content w with
  | Some w' =>
    {| value := Returned tt; world := w'; events := [WriteFile path content] |}
  | None => {| value := Thrown; world := w; events := [WriteFile path content] |}
  end.

Definition fs_mkdir (path : jsstring) : M unit := fun w =>
  match mkdirSync h path w with
  | Some w' => {| value := Returned tt; world := w'; events := [Mkdir path] |}
  | None => {| value := Thrown; world := w; events := [Mkdir path] |}
  end.

(** A command run inside a [try]: [None] is the exception, handed to the
    [catch]. *)
Definition exec_sync (cmd : jsstring) (options : Options) : M (option jsstring) :=
  fun w =>
  let (r, w') := execSync h cmd options w in
  {| value := Returned r; world := w'; events := [ExecSync cmd options] |}.

Definition spawn_child (cmd : jsstring) (options : SpawnOptions) : M ChildRun :=
  fun w =>
  match spawn h cmd options w with
  | Some (run, w') =>
    {| value := Returned run; world := w'; events := [Spawn cmd options] |}
  | None => {| value := Thrown; world := w; events := [Spawn cmd options] |}
  end.

Definition config : Config :=
  {| rootDir := dirname h;
     webDir := join h (dirname h) (u "web");
     outputDir := join h (dirname h) (u "_build");
     versionFile := join h (dirname h) (u "VERSION") |}.

Definition is_win32 : bool := JS.eqb (platform_name (process_platform h)) (u "win32").

Definition checkCommand (cmd : jsstring) : M bool :=
  r ← exec_sync (if is_win32 then u "where " ++ cmd else u "which " ++ cmd)
                no_options;
  mret (match r with Some _ => true | None => false end).

Definition setupNpmMirror : M unit :=
  show [log.info (u "配置 npm 国内镜像...")];;
  let npmrcPath := join h (webDir config) (u ".npmrc") in
  let npmrcContent :=
    u "registry=" ++ mirrors.npm ++ [LF] ++
    u "disturl=" ++ mirrors.nodeMirror ++ [LF] ++
    u "sass_binary_site=https://npmmirror.com/mirrors/node-sass/" ++ [LF] ++
    u "phantomjs_cdnurl=https://npmmirror.com/mirrors/phantomjs/" ++ [LF] ++
    u "electron_mirror=" ++ mirrors.electronMirror ++ [LF] ++
    u "chromedriver_cdnurl=https://npmmirror.com/mirrors/chromedriver/" ++ [LF] ++
    u "operadriver_cdnurl=https://npmmirror.com/mirrors/operadriver/" ++ [LF] ++
    u "selenium_cdnurl=https://npmmirror.com/mirrors/selenium/" ++ [LF] ++
    u "node_inspector_cdnurl=https://npmmirror.com/mirrors/node-inspector/" ++ [LF] ++
    u "fsevents_binary_host_mirror=https://npmmirror.com/mirrors/fsevents/" ++ [LF] in
  fs_write npmrcPath npmrcContent;;
  show [log.success (u "已创建 web/.npmrc")].

(** The [catch] block runs only when the read throws; a missing file
    falls through to the default. *)
Definition getVersion : M jsstring :=
  present ← fs_exists (versionFile config);
  if (present : bool) then
    content ← fs_read (versionFile config);
    match content with
    | Some text => mret (or_else (Some (trim text)) (u "v0.0.0"))
    | None =>
      gitVersion ← exec_sync (u "git describe --tags") no_options;
      match gitVersion with
      | Some text => mret (trim text)
      | None => mret (u "v0.0.0")
      end
    end
  else mret (u "v0.0.0").

Definition spawn_options (options : Options) : SpawnOptions :=
  {| cwd := default (rootDir config) (opt_cwd options);
     env := default (process_env h) (opt_env options) |}.

(** The executor of the promise runs [spawn] first and outside any
    [try]: when [spawn] throws, the promise is rejected; once the child
    exists, only its handlers settle the promise, and they resolve it. *)
Definition execWithProgress (cmd : jsstring) (options : Options) : M bool :=
  child ← spawn_child cmd (spawn_options options);
  let (r, out) := run_activity on_activity Runner_new (activity child) in
  let (out', resolved) := run_ending on_close on_error r (ending child) in
  show (out ++ out');;
  mret resolved.

Definition execGoWithProgress (cmd : jsstring) (options : Options) : M bool :=
  child ← spawn_child cmd (spawn_options options);
  let (r, out) := run_activity go_on_activity Runner_new (activity child) in
  let (out', resolved) := run_ending go_on_close on_error r (ending child) in
  show (out ++ out');;
  mret resolved.

Definition exec (cmd : jsstring) (options : Options) : M bool :=
  r ← exec_sync cmd {| opt_cwd := Some (default (rootDir config) (opt_cwd options));
                       opt_env := Some (default (process_env h) (opt_env options)) |};
  match r with
  | Some _ => mret true
  | None => show [log.error (u "命令执行失败: " ++ cmd)];; mret false
  end.

Definition rule : jsstring :=
  colors.cyan ++ colors.bright ++ repeat_str (u "═") 60 ++ colors.reset.

(** The dependency installation of [buildWeb]: [false] is its early
    [return false]. *)
Definition install_dependencies : M bool :=
  let nodeModulesPath := join h (webDir config) (u "node_modules") in
  present ← fs_exists nodeModulesPath;
  if negb present then
    show [log.info (u "安装前端依赖 (使用国内镜像)...")];;
    let installCmd :=
      u "npm install --legacy-peer-deps --registry=" ++ mirrors.npm ++ u " --timing" in
    success ← execWithProgress installCmd
                {| opt_cwd := Some (webDir config); opt_env := None |};
    if negb success then
      show [log.warn (u "尝试使用 --force 重新安装...")];;
      forceSuccess ← execWithProgress
        (u "npm install --force --registry=" ++ mirrors.npm ++ u " --timing")
        {| opt_cwd := Some (webDir config); opt_env := None |};
      mret forceSuccess
    else mret true
  else
    show [log.info (u "node_modules 已存在，跳过安装")];;
    mret true.

Definition buildWeb : M bool :=
  show [log.title (u "构建前端")];;
  present ← fs_exists (webDir config);
  if negb present then
    show [log.error (u "web 目录不存在")];;
    mret false
  else
    version ← getVersion;
    setupNpmMirror;;
    installed ← install_dependencies;
    if negb installed then mret false
    else
      show [log.info (u "构建前端资源...")];;
      let buildEnv :=
        <[u "NODE_OPTIONS" := u "--max-old-space-size=1536"]>
        (<[u "VITE_REACT_APP_VERSION" := version]>
        (<[u "DISABLE_ESLINT_PLUGIN" := u "true"]> (process_env h))) in
      buildResult ← exec (u "npm run build")
                      {| opt_cwd := Some (webDir config); opt_env := Some buildEnv |};
      (if (buildResult : bool) then
         let buildDir := join h (webDir config) (u "dist") in
         show [ConsoleLog ([LF] ++ rule);
               log.success (u "前端构建完成！");
               ConsoleLog ([LF] ++ u "  构建产物: " ++ colors.green ++ buildDir ++ colors.reset);
               ConsoleLog (u "  版本: " ++ colors.cyan ++ version ++ colors.reset);
               ConsoleLog ([LF] ++ rule ++ [LF])]
       else mret tt);;
      mret buildResult.

Definition osMap : dict :=
  {[ u "win32" := u "windows"; u "darwin" := u "darwin"; u "linux" := u "linux" ]}.

Definition archMap : dict :=
  {[ u "x64" := u "amd64"; u "arm64" := u "arm64"; u "ia32" := u "386" ]}.

(** The artifact name [buildBackend] derives from its two arguments. *)
Definition goos_of (targetOS : jsstring) : jsstring :=
  or_else (osMap !! targetOS) targetOS.

Definition goarch_of (targetArch : jsstring) : jsstring :=
  or_else (archMap !! targetArch) targetArch.

Definition binaryName_of (goos goarch : jsstring) : jsstring :=
  let binaryName := u "new-api-" ++ goos ++ u "-" ++ goarch in
  if JS.eqb goos (u "windows") then binaryName ++ u ".exe" else binaryName.

(** What [buildBackend] prints when Go is not installed. *)
Definition go_missing_hints : list display :=
  let platform := platform_name (process_platform h) in
  let arch := arch_name (process_arch h) in
  let recommend (file : jsstring) :=
    log.info (u "推荐下载: " ++ colors.green ++ file ++ colors.reset) in
  [log.error (u "未检测到 Go 环境"); ConsoleLog [];
   log.info (u "推荐版本: Go 1.21 或更高版本")] ++
  (if JS.eqb platform (u "win32") then
     [recommend (if JS.eqb arch (u "x64") then u "go1.25.4.windows-amd64.msi"
                 else u "go1.25.4.windows-arm64.msi");
      log.info (u "安装后需要重启终端")]
   else if JS.eqb platform (u "darwin") then
     [recommend (if JS.eqb arch (u "arm64") then u "go1.25.4.darwin-arm64.pkg"
                 else u "go1.25.4.darwin-amd64.pkg")]
   else if JS.eqb platform (u "linux") then
     [recommend (if JS.eqb arch (u "arm64") then u "go1.25.4.linux-arm64.tar.gz"
                 else u "go1.25.4.linux-amd64.tar.gz");
      log.info (u "解压后设置环境变量: export PATH=$PATH:/usr/local/go/bin")]
   else []) ++
  [ConsoleLog [];
   log.info (colors.cyan ++ u "官方地址:" ++ colors.reset ++ u " https://golang.google.cn/dl/");
   log.info (colors.cyan ++ u "镜像地址:" ++ colors.reset ++ u " https://mirrors.nju.edu.cn/golang/");
   ConsoleLog []].

(** The body of [buildBackend]. *)
Definition buildBackend_body (targetOS : Platform) (targetArch : Arch) : M bool :=
  show [log.title (u "构建后端")];;
  hasGo ← checkCommand (u "go");
  if negb hasGo then
    show go_missing_hints;;
    mret false
  else
    version ← getVersion;
    let goos := goos_of (platform_name targetOS) in
    let goarch := goarch_of (arch_name targetArch) in
    outputExists ← fs_exists (outputDir config);
    (if negb outputExists then fs_mkdir (outputDir config) else mret tt);;
    let binaryName := binaryName_of goos goarch in
    let binaryPath := join h (outputDir config) binaryName in
    show [log.info (u "目标平台: " ++ goos ++ u "/" ++ goarch);
          log.info (u "版本: " ++ version);
          log.info (u "Go 代理: " ++ mirrors.goproxy)];;
    let distDir := join h (webDir config) (u "dist") in
    distExists ← fs_exists distDir;
    if negb distExists then
      show [log.warn (u "前端资源不存在，请先构建前端")];;
      mret false
    else
      show [log.info (u "更新 Go 依赖 (使用国内镜像)...")];;
      let goEnv :=
        <[u "GOSUMDB" := mirrors.gosumdb]>
        (<[u "GOPROXY" := mirrors.goproxy]> (process_env h)) in
      tidied ← execGoWithProgress (u "go mod tidy")
                 {| opt_cwd := None; opt_env := Some goEnv |};
      if negb tidied then
        show [log.error (u "Go 依赖更新失败")];;
        mret false
      else
        let ldflags := u "-w -s -X 'one-api/common.Version=" ++ version ++ u "'" in
        let buildEnv :=
          <[u "CGO_ENABLED" := u "0"]>
          (<[u "GOARCH" := goarch]> (<[u "GOOS" := goos]> goEnv)) in
        let buildCmd :=
          u "go build -o " ++ [DQUOTE] ++ binaryPath ++ [DQUOTE] ++
          u " -ldflags " ++ [DQUOTE] ++ ldflags ++ [DQUOTE] in
        show [log.info (u "编译后端...")];;
        compiled ← execGoWithProgress buildCmd
                     {| opt_cwd := None; opt_env := Some buildEnv |};
        if negb compiled then
          show [log.error (u "Go 编译失败")];;
          mret false
        else
          show [ConsoleLog ([LF] ++ rule);
                log.success (u "后端构建完成！");
                ConsoleLog ([LF] ++ u "  构建产物: " ++ colors.green ++ binaryPath ++ colors.reset);
                ConsoleLog (u "  平台: " ++ colors.cyan ++ goos ++ u "/" ++ goarch ++ colors.reset);
                ConsoleLog (u "  版本: " ++ colors.cyan ++ version ++ colors.reset);
                ConsoleLog ([LF] ++ rule ++ [LF])];;
          mret true.

(** [buildBackend] with its entry and its return marked in the trace. *)
Definition buildBackend (targetOS : Platform) (targetArch : Arch) : M bool :=
  ghost (BackendCalled targetOS targetArch);;
  result ← buildBackend_body targetOS targetArch;
  ghost (BackendReturned result);;
  mret result.

(** The lookup of the quick-start hint of [buildAll] knows two
    architectures only. *)
Definition hint_archMap : dict :=
  {[ u "x64" := u "amd64"; u "arm64" := u "arm64" ]}.

Definition buildAll_summary : list display :=
  let box (l body r : jsstring) :=
    colors.cyan ++ colors.bright ++ l ++ body ++ r ++ colors.reset in
  let goos := goos_of (platform_name (process_platform h)) in
  let goarch :=
    or_else (hint_archMap !! arch_name (process_arch h)) (arch_name (process_arch h)) in
  let binaryPath := join h (outputDir config) (binaryName_of goos goarch) in
  [ConsoleLog ([LF] ++ box (u "╔") (repeat_str (u "═") 58) (u "╗"));
   ConsoleLog (box (u "║") (repeat_str (u " ") 58) (u "║"));
   ConsoleLog (colors.cyan ++ colors.bright ++ u "║" ++ colors.green ++ colors.bright
               ++ padEnd (u "  ✓ 完整构建完成！前端 + 后端已成功构建  ") 58 32
               ++ colors.cyan ++ u "║" ++ colors.reset);
   ConsoleLog (box (u "║") (repeat_str (u " ") 58) (u "║"));
   ConsoleLog (box (u "╚") (repeat_str (u "═") 58) (u "╝"));
   ConsoleLog ([LF] ++ colors.yellow ++ u "📦 构建产物:" ++ colors.reset);
   ConsoleLog (u "  前端: " ++ colors.green ++ join h (webDir config) (u "dist") ++ colors.reset);
   ConsoleLog (u "  后端: " ++ colors.green ++ outputDir config ++ colors.reset);
   ConsoleLog ([LF] ++ colors.yellow ++ u "🚀 快速启动:" ++ colors.reset);
   ConsoleLog (u "  " ++ colors.green ++ binaryPath ++ colors.reset);
   ConsoleLog ([LF] ++ colors.yellow ++ u "💡 提示:" ++ colors.reset);
   ConsoleLog (u "  - 应用会自动加载前端构建产物");
   ConsoleLog (u "  - 默认监听端口: " ++ colors.cyan ++ u "3000" ++ colors.reset);
   ConsoleLog (u "  - 访问地址: " ++ colors.cyan ++ u "http://localhost:3000" ++ colors.reset);
   ConsoleLog []].

Definition buildAll : M bool :=
  show [log.title (u "完整构建")];;
  webResult ← buildWeb;
  if negb webResult then
    show [log.error (u "前端构建失败")];;
    mret false
  else
    backendResult ← buildBackend (process_platform h) (process_arch h);
    if negb backendResult then
      show [log.error (u "后端构建失败")];;
      mret false
    else
      show buildAll_summary;;
      mret true.

Definition targets : list Target :=
  [ {| os := Linux; arch := X64; desc := u "Linux x64" |};
    {| os := Linux; arch := Arm64; desc := u "Linux ARM64" |};
    {| os := Win32; arch := X64; desc := u "Windows x64" |};
    {| os := Win32; arch := Arm64; desc := u "Windows ARM64" |};
    {| os := Darwin; arch := X64; desc := u "macOS x64 (Intel)" |};
    {| os := Darwin; arch := Arm64; desc := u "macOS ARM64 (Apple Silicon)" |} ].

(** The [for] loop of [crossCompile] over the targets still to build;
    [len] is [targets.length]. *)
Fixpoint compile_loop (len : Z) (todo : list Target) (successCount : Z) : M Z :=
  match todo with
  | [] => mret successCount
  | target :: todo' =>
    show [log.info (u "[" ++ of_int (successCount + 1) ++ u "/" ++ of_int len
                    ++ u "] 正在编译: " ++ desc target)];;
    result ← buildBackend (os target) (arch target);
    let successCount := if (result : bool) then (successCount + 1)%Z else successCount in
    show [ConsoleLog []];;
    compile_loop len todo' successCount
  end.

(** What [crossCompile] prints after the loop; its second line reports
    [successCount]. *)
Definition crossCompile_report (successCount len : Z) : display :=
  log.success (u "交叉编译完成！成功: " ++ of_int successCount ++ u "/" ++ of_int len).

Definition crossCompile_summary (successCount len : Z) : list display :=
  [ConsoleLog ([LF] ++ rule);
   crossCompile_report successCount len;
   ConsoleLog ([LF] ++ colors.yellow ++ u "📦 构建产物:" ++ colors.reset);
   ConsoleLog (u "  " ++ colors.green ++ outputDir config ++ colors.reset);
   ConsoleLog ([LF] ++ rule ++ [LF])].

Definition crossCompile : M bool :=
  show [log.title (u "交叉编译所有平台")];;
  webResult ← buildWeb;
  if negb webResult then
    show [log.error (u "前端构建失败")];;
    mret false
  else
    let len := Z.of_nat (length targets) in
    show [log.info (u "准备编译 " ++ of_int len ++ u " 个平台版本..." ++ [LF])];;
    successCount ← compile_loop len targets 0%Z;
    show (crossCompile_summary successCount len);;
    mret (successCount =? len)%Z.

End Pipeline.

Arguments value {h A} o.
Arguments world {h A} o.
Arguments events {h A} o.

(** *** Reading a trace *)

(** The targets [buildBackend] was called with, in order. *)
Fixpoint backend_calls (t : list event) : list (Platform * Arch) :=
  match t with
  | [] => []
  | BackendCalled targetOS targetArch :: t' =>
    (targetOS, targetArch) :: backend_calls t'
  | _ :: t' => backend_calls t'
  end.

(** The values the calls of [buildBackend] returned, in order. *)
Fixpoint backend_results (t : list event) : list bool :=
  match t with
  | [] => []
  | BackendReturned result :: t' => result :: backend_results t'
  | _ :: t' => backend_results t'
  end.

Definition count_true (results : list bool) : Z :=
  Z.of_nat (length (filter (fun b => b = true) results)).

(** A step that neither calls [buildBackend] nor returns from it. *)
Definition quiet {h : Host} {A : Type} (m : M h A) : Prop :=
  forall w, backend_calls (events (m w)) = []
            /\ backend_results (events (m w)) = [].

(** What holds of the end, the world and the events of a step run in a
    world. *)
Definition post {h : Host} {A : Type} (m : M h A) (w : W h)
    (Q : Completion A -> W h -> list event -> Prop) : Prop :=
  Q (value (m w)) (world (m w)) (events (m w)).

(** Whether the command of a child that ended in [e] succeeded: it exited
    with code 0. *)
Definition exited_zero (e : Ending) : bool :=
  match e with
  | Closes code => bool_decide (code = Some 0%Z)
  | Errors _ _ => false
  end.

(** *** A host to run the pipeline on *)

(** The world is a switch for the file system and for [execSync] (every
    path exists and every command succeeds, or none) and the runs of the
    children still to be spawned. *)
Definition demo_host : Host :=
  {| W := bool * list ChildRun;
     process_platform := Linux;
     process_arch := X64;
     process_env := {[ u "PATH" := u "/usr/bin" ]};
     dirname := u "/repo";
     join := fun a b => a ++ [SLASH] ++ b;
     existsSync := fun _ w => fst w;
     readFileSync := fun _ w => if fst w then Some (u "v1.2.3" ++ [LF]) else None;
     writeFileSync := fun _ _ w => Some w;
     mkdirSync := fun _ w => Some w;
     execSync := fun _ _ w => (if fst w then Some [] else None, w);
     spawn := fun _ _ w =>
       match snd w with
       | run :: runs => Some (run, (fst w, runs))
       | [] => Some ({| activity := []; ending := Closes (Some 0%Z) |}, w)
       end |}.

Definition quiet_success : ChildRun :=
  {| activity := [Tick; Tick]; ending := Closes (Some 0%Z) |}.

Definition noisy_success : ChildRun :=
  {| activity := [Data Stderr (u "go: finding module for package x" ++ [LF]);
                  Tick;
                  Data Stderr (u "go: downloading github.com/gin-gonic/gin v1.9.1" ++ [LF])];
     ending := Closes (Some 0%Z) |}.

Definition compile_error : ChildRun :=
  {| activity := [Data Stderr (u "./main.go:1:1: syntax error" ++ [LF])];
     ending := Closes (Some 1%Z) |}.

Definition spawn_failure : ChildRun :=
  {| activity := [];
     ending := Errors (u "spawn /bin/sh ENOENT") (Some (Some (-2)%Z)) |}.

(** Everything in place; of the six targets the second fails in
    [go mod tidy], the third in [go build], and the shell of the fourth
    cannot be spawned. *)
Definition mixed_world : W demo_host :=
  (true, [quiet_success; noisy_success;
          compile_error;
          quiet_success; compile_error;
          spawn_failure]).

(** Nothing in place: not even the web directory exists. *)
Definition bare_world : W demo_host := (false, []).

(** A host on which nothing can be created: every file is in place except
    the output directory, every command succeeds, and [mkdirSync] and
    [spawn] throw. *)
Definition locked_host : Host :=
  {| W := unit;
     process_platform := Linux;
     process_arch := X64;
     process_env := {[ u "PATH" := u "/usr/bin" ]};
     dirname := u "/repo";
     join := fun a b => a ++ [SLASH] ++ b;
     existsSync := fun path _ => negb (JS.eqb path (u "/repo/_build"));
     readFileSync := fun _ _ => Some (u "v1.2.3" ++ [LF]);
     writeFileSync := fun _ _ w => Some w;
     mkdirSync := fun _ _ => None;
     execSync := fun _ _ w => (Some [], w);
     spawn := fun _ _ _ => None |}.

Definition six_targets : list (Platform * Arch) :=
  [(Linux, X64); (Linux, Arm64); (Win32, X64); (Win32, Arm64);
   (Darwin, X64); (Darwin, Arm64)].

(** *** Reading the effects off a trace *)

Definition spawned (t : list event) : list (jsstring * SpawnOptions) :=
  omap (fun e => match e with Spawn cmd options => Some (cmd, options) | _ => None end) t.

Definition executed (t : list event) : list (jsstring * Options) :=
  omap (fun e => match e with ExecSync cmd options => Some (cmd, options) | _ => None end) t.

Definition written (t : list event) : list (jsstring * jsstring) :=
  omap (fun e => match e with WriteFile path content => Some (path, content) | _ => None end) t.

Definition made (t : list event) : list jsstring :=
  omap (fun e => match e with Mkdir path => Some path | _ => None end) t.

(** The name of the artifact for a target. *)
Definition artifact_name (targetOS : Platform) (targetArch : Arch) : jsstring :=
  binaryName_of (goos_of (platform_name targetOS)) (goarch_of (arch_name targetArch)).

(** The command [checkCommand('go')] runs. *)
Definition which_go (h : Host) : jsstring :=
  if is_win32 h then u "where go" else u "which go".

(** What [buildBackend] starts the two Go commands with. *)
Definition go_env (h : Host) : dict :=
  <[u "GOSUMDB" := mirrors.gosumdb]>
  (<[u "GOPROXY" := mirrors.goproxy]> (process_env h)).

Definition go_build_env (h : Host) (targetOS : Platform) (targetArch : Arch) : dict :=
  <[u "CGO_ENABLED" := u "0"]>
  (<[u "GOARCH" := goarch_of (arch_name targetArch)]>
  (<[u "GOOS" := goos_of (platform_name targetOS)]> (go_env h))).

Definition go_build_cmd (h : Host) (targetOS : Platform) (targetArch : Arch)
    (version : jsstring) : jsstring :=
  u "go build -o " ++ [DQUOTE]
  ++ join h (outputDir (config h)) (artifact_name targetOS targetArch)
  ++ [DQUOTE] ++ u " -ldflags " ++ [DQUOTE]
  ++ (u "-w -s -X 'one-api/common.Version=" ++ version ++ u "'") ++ [DQUOTE].

Definition go_tidy (h : Host) : jsstring * SpawnOptions :=
  (u "go mod tidy", {| cwd := rootDir (config h); env := go_env h |}).

Definition go_build (h : Host) (targetOS : Platform) (targetArch : Arch)
    (version : jsstring) : jsstring * SpawnOptions :=
  (go_build_cmd h targetOS targetArch version,
   {| cwd := rootDir (config h); env := go_build_env h targetOS targetArch |}).

End Build.

(* ===================================================================== *)
(** ** The launcher script *)
(* ===================================================================== *)

Module Launcher.

Record Host := {
  process_platform : Platform;            (* process.platform *)
  process_arch : Arch;                    (* process.arch *)
  process_env : dict;                     (* process.env *)
  dirname : jsstring;                     (* __dirname *)
  join : jsstring -> jsstring -> jsstring;  (* path.join *)
  existsSync : jsstring -> bool;
  readFileSync : jsstring -> jsstring;
}.

Inductive event :=
| ConsoleLog (msg : jsstring)
| ConsoleError (msg : jsstring)
| Spawn (exe : jsstring) (env : dict)
| Kill (signal : jsstring).

Definition is_spawn (e : event) : bool :=
  match e with Spawn _ _ => true | _ => false end.

(** A computation either goes on with a value or has called
    [process.exit]; in both cases it has emitted some events. *)
Inductive step (A : Type) :=
| Continue (a : A)
| Exit (code : Z).
Arguments Continue {A} a.
Arguments Exit {A} code.

Definition M (A : Type) : Type := list event * step A.

#[export] Instance exit_ret : MRet M := fun A a => ([], Continue a).

#[export] Instance exit_bind : MBind M := fun A B f m =>
  match m with
  | (t, Continue a) => let (t', r) := f a in (t ++ t', r)
  | (t, Exit code) => (t, Exit code)
  end.

Definition emit (e : event) : M unit := ([e], Continue tt).
Definition process_exit {A} (code : Z) : M A := ([], Exit code).
Definition console_log (msg : jsstring) : M unit := emit (ConsoleLog msg).
Definition console_error (msg : jsstring) : M unit := emit (ConsoleError msg).

(** The regular expression of [loadEnv], anchored at both ends: one or
    more characters other than [=] (group 1), an [=], then any number of
    dot characters (group 2). Group 1 cannot hold an [=], so it is the text
    before the first [=] and must not be empty; the dot matches no line
    terminator, so none may follow the [=]. *)
Definition match_key_value (line : jsstring) : option (jsstring * jsstring) :=
  match span (fun c => negb (c =? EQUALS)) line with
  | (c :: k, _ :: v) =>
    if forallb (fun c => negb (is_line_terminator c)) v
    then Some (c :: k, v) else None
  | _ => None
  end.

Definition strip_quotes (value : jsstring) : jsstring :=
  if (startsWith value [DQUOTE] && endsWith value [DQUOTE])
     || (startsWith value [SQUOTE] && endsWith value [SQUOTE])
  then slice value 1 (-1)
  else value.

(** The body of the [forEach] callback of [loadEnv]. *)
Definition env_line (config : dict) (line : jsstring) : dict :=
  let line := trim line in
  if is_empty line || startsWith line [HASH] then config
  else match match_key_value line with
       | Some (m1, m2) =>
         let key := trim m1 in
         let value := strip_quotes (trim m2) in
         obj_set config key value
       | None => config
       end.

Definition parse_env (envContent : jsstring) : dict :=
  fold_left env_line (split LF envContent) ∅.

Definition loadEnv (h : Host) (envPath : jsstring) : M dict :=
  if negb (existsSync h envPath) then
    console_error (u "❌ 找不到配置文件: " ++ envPath);;
    process_exit 1
  else
    mret (parse_env (readFileSync h envPath)).

Definition platformMap : dict :=
  {[ u "win32" := u "windows"; u "linux" := u "linux";
     u "darwin" := u "darwin" ]}.

Definition archMap : dict :=
  {[ u "x64" := u "amd64"; u "arm64" := u "arm64" ]}.

(** The file name [getExecutablePath] builds once both lookups succeed. *)
Definition exeName (platform platformName archName : jsstring) : jsstring :=
  if JS.eqb platform (u "win32")
  then u "new-api-" ++ platformName ++ u "-" ++ archName ++ u ".exe"
  else u "new-api-" ++ platformName ++ u "-" ++ archName.

Definition getExecutablePath (h : Host) : M jsstring :=
  let platform := platform_name (process_platform h) in
  let arch := arch_name (process_arch h) in
  let platformName := platformMap !! platform in
  let archName := archMap !! arch in
  if falsy platformName || falsy archName then
    console_error (u "❌ 不支持的平台: " ++ platform ++ u " " ++ arch);;
    process_exit 1
  else
    let exeName :=
      exeName platform (default [] platformName) (default [] archName) in
    let exePath := join h (dirname h) exeName in
    if negb (existsSync h exePath) then
      console_error (u "❌ 找不到可执行文件: " ++ exeName);;
      console_error (u "   请确保文件存在于: " ++ dirname h);;
      process_exit 1
    else mret exePath.

(** What the event loop delivers to the handlers the script installs. *)
Inductive LoopEvent :=
| ChildError (message : jsstring)                       (* child 'error' *)
| ChildExit (code : option Z) (signal : option jsstring) (* child 'exit' *)
| ProcessSIGINT
| ProcessSIGTERM.

(** [code || 0]: [null] and [0] are falsy. *)
Definition code_or_zero (code : option Z) : Z :=
  match code with
  | Some c => if (c =? 0)%Z then 0%Z else c
  | None => 0%Z
  end.

Definition handle (e : LoopEvent) : M unit :=
  match e with
  | ChildError message =>
    console_error (u "❌ 启动失败: " ++ message);;
    process_exit 1
  | ChildExit code signal =>
    match code, signal with
    | Some c, _ => console_log (LF :: u "进程退出，退出码: " ++ of_int c)
    | None, Some s => console_log (LF :: u "进程被信号终止: " ++ s)
    | None, None => mret tt
    end;;
    process_exit (code_or_zero code)
  | ProcessSIGINT =>
    console_log ([LF; LF] ++ u "⏹️  正在停止服务器...");;
    emit (Kill (u "SIGINT"))
  | ProcessSIGTERM =>
    console_log ([LF; LF] ++ u "⏹️  正在停止服务器...");;
    emit (Kill (u "SIGTERM"))
  end.

Fixpoint event_loop (events : list LoopEvent) : M unit :=
  match events with
  | [] => mret tt
  | e :: events' => handle e;; event_loop events'
  end.

Definition is_path_separator (c : N) : bool := (c =? 47) || (c =? 92).

(** The statements of the script, top to bottom, up to the [spawn]. *)
Definition script (h : Host) : M unit :=
  let envPath := join h (dirname h) (u ".env") in
  config ← loadEnv h envPath;
  console_log (u "🚀 正在启动 New API..." ++ [LF]);;
  console_log (u "📋 配置信息:");;
  console_log (u "   - 端口: " ++ or_else (config !! u "PORT") (u "3000 (默认)"));;
  console_log (u "   - 数据库: " ++
    (if bool_decide (config !! u "SQL_DSN" = Some (u "local")) then u "SQLite"
     else or_else (config !! u "SQL_DSN") (u "SQLite (默认)")));;
  console_log (u "   - Redis: " ++
    (if falsy (config !! u "REDIS_CONN_STRING") then u "禁用" else u "启用"));;
  console_log (u "   - 时区: " ++ or_else (config !! u "TZ") (u "UTC (默认)"));;
  console_log [];;
  exePath ← getExecutablePath h;
  console_log (u "📦 使用可执行文件: " ++
    join h (dirname h)
      (default [] (pop (split_by is_path_separator exePath))) ++ [LF]);;
  emit (Spawn exePath (config ∪ process_env h)).

(** A run of the launcher: the script, then the handlers on the events
    the loop delivers. The result [Continue tt] means that the launcher
    is still running when [events] ends. *)
Definition main (h : Host) (events : list LoopEvent) : M unit :=
  script h;;
  event_loop events.

Definition exit_status (run : M unit) : option Z :=
  match snd run with
  | Exit code => Some code
  | Continue _ => None
  end.

Definition spawns (run : M unit) : list event := filter (fun e => is_spawn e = true) (fst run).

(** *** The locator as the specification has it *)

(** A function of the host's platform and architecture alone: the file
    name of the executable, when the host is supported. *)
Definition ExecutableLocator (platform : Platform) (arch : Arch) : option jsstring :=
  match platformMap !! platform_name platform, archMap !! arch_name arch with
  | Some platformName, Some archName =>
    Some (exeName (platform_name platform) platformName archName)
  | _, _ => None
  end.

Definition is_signal (e : LoopEvent) : bool :=
  match e with ProcessSIGINT | ProcessSIGTERM => true | _ => false end.

(** The configuration line of the example, with either kind of quote. *)
Definition port_line : jsstring :=
  u "PORT=" ++ [DQUOTE] ++ u "8080" ++ [DQUOTE].

Definition port_line_single : jsstring := u "PORT='8080'".

(** *** Hosts to run the launcher on *)

Definition demo_join (a b : jsstring) : jsstring := a ++ [SLASH] ++ b.

Definition demo_env_file : jsstring :=
  u "# settings" ++ [LF] ++
  [LF] ++
  u "PORT=" ++ [DQUOTE] ++ u "8080" ++ [DQUOTE] ++ [LF] ++
  u "this line has no separator" ++ [LF] ++
  u "SQL_DSN='local'" ++ [LF].

(** A Linux x64 host with the configuration file and the executable in
    place. *)
Definition linux_host : Host :=
  {| process_platform := Linux;
     process_arch := X64;
     process_env := {[ u "PATH" := u "/usr/bin"; u "PORT" := u "3000" ]};
     dirname := u "/opt/new-api";
     join := demo_join;
     existsSync := fun _ => true;
     readFileSync := fun _ => demo_env_file |}.

(** The same directory without any file in it. *)
Definition empty_host : Host :=
  {| process_platform := Linux;
     process_arch := X64;
     process_env := ∅;
     dirname := u "/opt/new-api";
     join := demo_join;
     existsSync := fun _ => false;
     readFileSync := fun _ => [] |}.

(** A 32-bit x86 host with every file in place. *)
Definition ia32_host : Host :=
  {| process_platform := Linux;
     process_arch := Ia32;
     process_env := ∅;
     dirname := u "/opt/new-api";
     join := demo_join;
     existsSync := fun _ => true;
     readFileSync := fun _ => demo_env_file |}.

(** A host with the configuration file but not the executable. *)
Definition no_exe_host : Host :=
  {| process_platform := Linux;
     process_arch := X64;
     process_env := ∅;
     dirname := u "/opt/new-api";
     join := demo_join;
     existsSync := fun path => JS.eqb path (u "/opt/new-api/.env");
     readFileSync := fun _ => demo_env_file |}.

(** *** Shapes of a configuration line *)

(** A text with a first and a last character, neither of them white
    space. *)
Definition tight (s : jsstring) : bool :=
  match s, last s with
  | c :: _, Some d => negb (is_space c) && negb (is_space d)
  | _, _ => false
  end.

Definition blank (s : jsstring) : bool := forallb is_space s.

(** A text the dot of a regular expression matches throughout. *)
Definition one_line (s : jsstring) : bool :=
  forallb (fun c => negb (is_line_terminator c)) s.

(** A key that a line can carry and an object can hold as it is. *)
Definition plain_key (k : jsstring) : bool :=
  tight k && negb (startsWith k [HASH])
  && forallb (fun c => negb (c =? EQUALS) && negb (c =? LF)) k
  && negb (JS.eqb k (u "__proto__")).

Definition is_quote (q : N) : bool := (q =? DQUOTE) || (q =? SQUOTE).

(** The two files are where the script looks for them. *)
Definition files_in_place (h : Host) : bool :=
  existsSync h (join h (dirname h) (u ".env"))
  && match ExecutableLocator (process_platform h) (process_arch h) with
     | Some name => existsSync h (join h (dirname h) name)
     | None => false
     end.

(** *** Reading the signals off a trace *)

(** The signals sent to the child, in order. *)
Fixpoint kills (t : list event) : list jsstring :=
  match t with
  | [] => []
  | Kill signal :: t' => signal :: kills t'
  | _ :: t' => kills t'
  end.

(** The signal a loop event makes the launcher send. *)
Definition forwarded (e : LoopEvent) : list jsstring :=
  match e with
  | ProcessSIGINT => [u "SIGINT"]
  | ProcessSIGTERM => [u "SIGTERM"]
  | _ => []
  end.

End Launcher.

(* ===================================================================== *)
(** ** Facts about the string methods *)
(* ===================================================================== *)

(** Decide a closed decidable proposition by evaluating its decision. *)
Ltac by_computation := apply (bool_decide_unpack _); vm_compute; exact I.

Module JSFacts.

Lemma trimStart_all_space (s : jsstring) :
  forallb is_space s = true -> trimStart s = [].
Proof.
  induction s as [|c s IH]; simpl; [reflexivity|].
  intros H. apply andb_prop in H as [Hc Hs]. rewrite Hc. auto.
Qed.

Lemma trimStart_snoc (s : jsstring) (c : N) :
  is_space c = false -> trimStart (s ++ [c]) = trimStart s ++ [c].
Proof.
  intros Hc. induction s as [|d s IH]; simpl.
  - rewrite Hc. reflexivity.
  - destruct (is_space d); [exact IH | reflexivity].
Qed.

Lemma trim_all_space (s : jsstring) :
  forallb is_space s = true -> trim s = [].
Proof.
  intros H. unfold trim. rewrite (trimStart_all_space s H). reflexivity.
Qed.

(** Trimming keeps a first character that is not white space. *)
Lemma trim_cons (c : N) (s : jsstring) :
  is_space c = false -> trim (c :: s) = c :: rev (trimStart (rev s)).
Proof.
  intros Hc. unfold trim. simpl trimStart at 2. rewrite Hc.
  simpl rev at 2. rewrite (trimStart_snoc _ _ Hc).
  rewrite rev_app_distr. reflexivity.
Qed.

Lemma trimStart_elem (s : jsstring) (x : N) :
  x ∈ trimStart s -> x ∈ s.
Proof.
  induction s as [|c s IH]; simpl; [auto|].
  destruct (is_space c); [|auto].
  intros H. apply elem_of_cons. right. auto.
Qed.

Lemma elem_of_rev (s : jsstring) (x : N) : x ∈ rev s -> x ∈ s.
Proof. rewrite !list_elem_of_In. apply in_rev. Qed.

Lemma trim_elem (s : jsstring) (x : N) : x ∈ trim s -> x ∈ s.
Proof.
  unfold trim. intros H.
  apply elem_of_rev in H. apply trimStart_elem in H.
  apply elem_of_rev in H. apply trimStart_elem in H. exact H.
Qed.

Lemma span_all (p : N -> bool) (s : jsstring) :
  (forall x, x ∈ s -> p x = true) -> span p s = (s, []).
Proof.
  induction s as [|c s IH]; simpl; intros H; [reflexivity|].
  rewrite (H c) by (apply elem_of_cons; auto).
  rewrite IH; [reflexivity|].
  intros x Hx. apply H. apply elem_of_cons. auto.
Qed.

Lemma split_by_cons (sep : N -> bool) (s : jsstring) :
  exists piece pieces, split_by sep s = piece :: pieces.
Proof.
  destruct s as [|c s]; simpl; [eauto|].
  destruct (sep c); [eauto|]. destruct (split_by sep s); eauto.
Qed.

(** Splitting distributes over a separator. *)
Lemma split_by_app (sep : N -> bool) (a b : jsstring) (x : N) :
  sep x = true ->
  split_by sep (a ++ x :: b) = split_by sep a ++ split_by sep b.
Proof.
  intros Hx. induction a as [|c a IH]; simpl.
  - rewrite Hx. reflexivity.
  - destruct (sep c); [rewrite IH; reflexivity|].
    rewrite IH. destruct (split_by_cons sep a) as (piece & pieces & ->).
    reflexivity.
Qed.

(** A text without separator is a single piece. *)
Lemma split_by_none (sep : N -> bool) (s : jsstring) :
  (forall x, x ∈ s -> sep x = false) -> split_by sep s = [s].
Proof.
  induction s as [|c s IH]; simpl; intros H; [reflexivity|].
  rewrite (H c) by (apply elem_of_cons; auto).
  rewrite IH; [reflexivity|].
  intros x Hx. apply H. apply elem_of_cons. auto.
Qed.

(** The methods on small inputs. *)

Example u_ascii : u "PORT" = [80; 79; 82; 84].
Proof. reflexivity. Qed.

Example u_cjk : u "完成" = [23436; 25104].
Proof. reflexivity. Qed.

Example u_astral : u "🚀" = [55357; 56960].
Proof. reflexivity. Qed.

Example split_lines :
  split LF (u "a" ++ [LF; LF] ++ u "b") = [u "a"; []; u "b"].
Proof. reflexivity. Qed.

Example slice_inner : slice (u "'8080'") 1 (-1) = u "8080".
Proof. reflexivity. Qed.

Example slice_single : slice [DQUOTE] 1 (-1) = [].
Proof. reflexivity. Qed.

Example trim_crlf : trim (u "  A=b " ++ [CR]) = u "A=b".
Proof. reflexivity. Qed.

Example reify_group :
  first_match (prefix_then_class (u "reify:") (fun c => negb (c =? COLON)))
              (u "npm http reify:lodash: timing")
  = Some (u "lodash").
Proof. reflexivity. Qed.

Example reify_no_group :
  first_match (prefix_then_class (u "reify:") (fun c => negb (c =? COLON)))
              (u "reify::")
  = None.
Proof. reflexivity. Qed.

End JSFacts.

(* ===================================================================== *)
(** ** Walking through the steps of the build script *)
(* ===================================================================== *)

Module BuildSteps.
Import Build.

(** *** The pieces of a trace *)

Lemma omap_display {X} (sel : event -> option X) (ds : list display) :
  (forall d, sel (Display d) = None) -> omap sel (map Display ds) = [].
Proof.
  intros H. induction ds as [|d ds IH]; [reflexivity|].
  simpl. rewrite H. exact IH.
Qed.

Lemma spawned_app (a b : list event) : spawned (a ++ b) = spawned a ++ spawned b.
Proof. apply omap_app. Qed.

Lemma executed_app (a b : list event) : executed (a ++ b) = executed a ++ executed b.
Proof. apply omap_app. Qed.

Lemma written_app (a b : list event) : written (a ++ b) = written a ++ written b.
Proof. apply omap_app. Qed.

Lemma made_app (a b : list event) : made (a ++ b) = made a ++ made b.
Proof. apply omap_app. Qed.

(** Distribute the projections over the pieces of a trace. *)
Ltac project :=
  rewrite ?spawned_app, ?executed_app, ?written_app, ?made_app.

(** Read the projections off the pieces that are in sight. *)
Ltac settle :=
  unfold spawned, executed, written, made;
  repeat (rewrite ?omap_app, ?(omap_display _ _ (fun _ => eq_refl));
          cbn [omap list_omap app]).

(** *** One rule for each step *)

Section Post.

Context (h : Host).

(** A step, then the rest when the step returned. *)
Lemma post_bind {A B} (m : M h A) (f : A -> M h B) (w : W h)
    (Q : Completion B -> W h -> list event -> Prop) :
  post m w (fun r w1 e1 =>
    match r with
    | Returned a => post (f a) w1 (fun r2 w2 e2 => Q r2 w2 (e1 ++ e2))
    | Thrown => Q Thrown w1 e1
    end) ->
  post (m ≫= f) w Q.
Proof.
  unfold post, mbind, M_bind. cbv zeta.
  destruct (value (m w)); exact (fun H => H).
Qed.

Lemma post_last {A} (m : M h A) (w : W h)
    (P Q : Completion A -> W h -> list event -> Prop) :
  post m w P -> (forall r w1 e1, P r w1 e1 -> Q r w1 e1) -> post m w Q.
Proof. intros Hm H. apply H. exact Hm. Qed.

(** What a step is in a world, for a step that is taken as a whole. *)
Lemma post_self {A} (m : M h A) (w : W h) :
  post m w (fun r w1 e1 => r = value (m w) /\ w1 = world (m w) /\ e1 = events (m w)).
Proof. repeat split. Qed.

Lemma post_ret {A} (a : A) (w : W h)
    (Q : Completion A -> W h -> list event -> Prop) :
  Q (Returned a) w [] -> post (mret a) w Q.
Proof. exact (fun H => H). Qed.

Lemma post_show (ds : list display) (w : W h)
    (Q : Completion unit -> W h -> list event -> Prop) :
  Q (Returned tt) w (map Display ds) -> post (show h ds) w Q.
Proof. exact (fun H => H). Qed.

Lemma post_ghost (e : event) (w : W h)
    (Q : Completion unit -> W h -> list event -> Prop) :
  Q (Returned tt) w [e] -> post (ghost h e) w Q.
Proof. exact (fun H => H). Qed.

Lemma post_fs_exists (path : jsstring) (w : W h)
    (Q : Completion bool -> W h -> list event -> Prop) :
  Q (Returned (existsSync h path w)) w [] -> post (fs_exists h path) w Q.
Proof. exact (fun H => H). Qed.

Lemma post_fs_read (path : jsstring) (w : W h)
    (Q : Completion (option jsstring) -> W h -> list event -> Prop) :
  Q (Returned (readFileSync h path w)) w [] -> post (fs_read h path) w Q.
Proof. exact (fun H => H). Qed.

Lemma post_fs_write (path content : jsstring) (w : W h)
    (Q : Completion unit -> W h -> list event -> Prop) :
  (forall w', writeFileSync h path content w = Some w' ->
     Q (Returned tt) w' [WriteFile path content]) ->
  (writeFileSync h path content w = None -> Q Thrown w [WriteFile path content]) ->
  post (fs_write h path content) w Q.
Proof.
  unfold post, fs_write. intros Hsome Hnone.
  destruct (writeFileSync h path content w) as [w'|]; [apply Hsome | apply Hnone];
    reflexivity.
Qed.

Lemma post_fs_mkdir (path : jsstring) (w : W h)
    (Q : Completion unit -> W h -> list event -> Prop) :
  (forall w', mkdirSync h path w = Some w' -> Q (Returned tt) w' [Mkdir path]) ->
  (mkdirSync h path w = None -> Q Thrown w [Mkdir path]) ->
  post (fs_mkdir h path) w Q.
Proof.
  unfold post, fs_mkdir. intros Hsome Hnone.
  destruct (mkdirSync h path w) as [w'|]; [apply Hsome | apply Hnone];
    reflexivity.
Qed.

Lemma post_exec_sync (cmd : jsstring) (options : Options) (w : W h)
    (Q : Completion (option jsstring) -> W h -> list event -> Prop) :
  Q (Returned (fst (execSync h cmd options w))) (snd (execSync h cmd options w))
    [ExecSync cmd options] ->
  post (exec_sync h cmd options) w Q.
Proof.
  unfold post, exec_sync. destruct (execSync h cmd options w).
  exact (fun H => H).
Qed.

Lemma post_spawn_child (cmd : jsstring) (options : SpawnOptions) (w : W h)
    (Q : Completion ChildRun -> W h -> list event -> Prop) :
  (forall child w', spawn h cmd options w = Some (child, w') ->
     Q (Returned child) w' [Spawn cmd options]) ->
  (spawn h cmd options w = None -> Q Thrown w [Spawn cmd options]) ->
  post (spawn_child h cmd options) w Q.
Proof.
  unfold post, spawn_child. intros Hsome Hnone.
  destruct (spawn h cmd options w) as [[child w']|]; [apply Hsome | apply Hnone];
    reflexivity.
Qed.

End Post.

(** Walk through a step: one rule for each form at its head. *)
Ltac walk_step :=
  lazymatch goal with
  | |- post (_ ≫= _) _ _ => apply post_bind
  | |- post (mret _) _ _ => apply post_ret
  | |- post (show _ _) _ _ => apply post_show
  | |- post (ghost _ _) _ _ => apply post_ghost
  | |- post (fs_exists _ _) _ _ => apply post_fs_exists
  | |- post (fs_read _ _) _ _ => apply post_fs_read
  | |- post (fs_write _ _ _) _ _ => apply post_fs_write; [intros ? ? | intros ?]
  | |- post (fs_mkdir _ _) _ _ => apply post_fs_mkdir; [intros ? ? | intros ?]
  | |- post (exec_sync _ _ _) _ _ => apply post_exec_sync
  | |- post (spawn_child _ _ _) _ _ =>
    apply post_spawn_child; [intros ? ? ? | intros ?]
  | |- post (if negb ?b then _ else _) _ _ =>
    destruct b eqn:?; cbv beta iota delta [negb]
  | |- post (if (if ?b then false else true) then _ else _) _ _ =>
    destruct b eqn:?
  | |- post (if ?b then _ else _) _ _ => destruct b eqn:?
  | |- post (match ?x with Some _ => _ | None => _ end) _ _ => destruct x eqn:?
  end; cbv beta iota.

Ltac walk := repeat walk_step.

(** Take the step at which [walk] stops with what a lemma says of it. *)
Tactic Notation "walk_with" constr(lemma) "as"
    simple_intropattern(r) simple_intropattern(w1) simple_intropattern(e1)
    simple_intropattern(H) :=
  eapply post_last; [apply lemma | cbv beta; intros r w1 e1 H].

End BuildSteps.

(* ===================================================================== *)
(** ** Properties of the build script *)
(* ===================================================================== *)

Module BuildProofs.
Import Build BuildSteps.

Section Traces.

Context (h : Host).

Lemma backend_calls_app (a b : list event) :
  backend_calls (a ++ b) = backend_calls a ++ backend_calls b.
Proof.
  induction a as [|e a IH]; simpl; [reflexivity|].
  destruct e; simpl; rewrite IH; reflexivity.
Qed.

Lemma backend_results_app (a b : list event) :
  backend_results (a ++ b) = backend_results a ++ backend_results b.
Proof.
  induction a as [|e a IH]; simpl; [reflexivity|].
  destruct e; simpl; rewrite IH; reflexivity.
Qed.

Lemma backend_calls_display (ds : list display) :
  backend_calls (map Display ds) = [].
Proof. induction ds; simpl; auto. Qed.

Lemma backend_results_display (ds : list display) :
  backend_results (map Display ds) = [].
Proof. induction ds; simpl; auto. Qed.

Lemma quiet_ret {A} (a : A) : quiet (mret a : M h A).
Proof. intros w. split; reflexivity. Qed.

Lemma quiet_bind {A B} (m : M h A) (f : A -> M h B) :
  quiet m -> (forall a, quiet (f a)) -> quiet (m ≫= f).
Proof.
  intros Hm Hf w. unfold mbind, M_bind. cbv zeta.
  destruct (Hm w) as [Hc Hr].
  destruct (value (m w)) as [a|]; cbn [events]; [|split; assumption].
  rewrite backend_calls_app, backend_results_app, Hc, Hr.
  destruct (Hf a (world (m w))) as [-> ->].
  split; reflexivity.
Qed.

Lemma quiet_show (ds : list display) : quiet (show h ds).
Proof.
  intros w. simpl. rewrite backend_calls_display, backend_results_display.
  split; reflexivity.
Qed.

Lemma quiet_fs_exists (path : jsstring) : quiet (fs_exists h path).
Proof. intros w. split; reflexivity. Qed.

Lemma quiet_fs_read (path : jsstring) : quiet (fs_read h path).
Proof. intros w. split; reflexivity. Qed.

Lemma quiet_fs_write (path content : jsstring) : quiet (fs_write h path content).
Proof.
  intros w. unfold fs_write. destruct (writeFileSync h path content w).
  all: split; reflexivity.
Qed.

Lemma quiet_fs_mkdir (path : jsstring) : quiet (fs_mkdir h path).
Proof.
  intros w. unfold fs_mkdir. destruct (mkdirSync h path w).
  all: split; reflexivity.
Qed.

Lemma quiet_exec_sync (cmd : jsstring) (options : Options) :
  quiet (exec_sync h cmd options).
Proof.
  intros w. unfold exec_sync. destruct (execSync h cmd options w).
  split; reflexivity.
Qed.

Lemma quiet_spawn_child (cmd : jsstring) (options : SpawnOptions) :
  quiet (spawn_child h cmd options).
Proof.
  intros w. unfold spawn_child. destruct (spawn h cmd options w) as [[child w']|].
  all: split; reflexivity.
Qed.

End Traces.

Create HintDb quiet.
#[local] Hint Resolve quiet_ret quiet_show quiet_fs_exists quiet_fs_read
  quiet_fs_write quiet_fs_mkdir quiet_exec_sync quiet_spawn_child : quiet.

(** Walk through a step of the script: split at each bind, take both
    branches of each test. *)
Ltac quiet_walk :=
  cbv zeta;
  repeat first
    [ solve [auto with quiet]
    | apply quiet_bind; [| intros ?]
    | match goal with
      | |- quiet (if ?b then _ else _) => destruct b
      | |- quiet (match ?x with _ => _ end) => destruct x
      end ].

Section Steps.

Context (h : Host).

Lemma quiet_checkCommand (cmd : jsstring) : quiet (checkCommand h cmd).
Proof. unfold checkCommand. quiet_walk. Qed.

Lemma quiet_setupNpmMirror : quiet (setupNpmMirror h).
Proof. unfold setupNpmMirror. quiet_walk. Qed.

Lemma quiet_getVersion : quiet (getVersion h).
Proof. unfold getVersion. quiet_walk. Qed.

Lemma quiet_execWithProgress (cmd : jsstring) (options : Options) :
  quiet (execWithProgress h cmd options).
Proof. unfold execWithProgress. quiet_walk. Qed.

Lemma quiet_execGoWithProgress (cmd : jsstring) (options : Options) :
  quiet (execGoWithProgress h cmd options).
Proof. unfold execGoWithProgress. quiet_walk. Qed.

Lemma quiet_exec (cmd : jsstring) (options : Options) : quiet (exec h cmd options).
Proof. unfold exec. quiet_walk. Qed.

End Steps.

#[local] Hint Resolve quiet_checkCommand quiet_setupNpmMirror quiet_getVersion
  quiet_execWithProgress quiet_execGoWithProgress quiet_exec : quiet.

Section Builds.

Context (h : Host).

Lemma quiet_install_dependencies : quiet (install_dependencies h).
Proof. unfold install_dependencies. quiet_walk. Qed.

Lemma quiet_buildWeb : quiet (buildWeb h).
Proof.
  pose proof quiet_install_dependencies.
  unfold buildWeb. quiet_walk.
Qed.

Lemma quiet_buildBackend_body (targetOS : Platform) (targetArch : Arch) :
  quiet (buildBackend_body h targetOS targetArch).
Proof. unfold buildBackend_body. quiet_walk. Qed.

(** *** The runners *)

Lemma run_ending_npm (r : Runner) (e : Ending) :
  snd (run_ending on_close on_error r e) = exited_zero e.
Proof.
  destruct e as [code|message close]; simpl.
  - unfold on_close. destruct (bool_decide (code = Some 0%Z)); reflexivity.
  - destruct close as [code|]; [|reflexivity].
    unfold on_close. destruct (bool_decide (code = Some 0%Z)); reflexivity.
Qed.

Lemma run_ending_go (r : Runner) (e : Ending) :
  snd (run_ending go_on_close on_error r e) = exited_zero e.
Proof.
  destruct e as [code|message close]; simpl.
  - unfold go_on_close. destruct (bool_decide (code = Some 0%Z)); reflexivity.
  - destruct close as [code|]; [|reflexivity].
    unfold go_on_close. destruct (bool_decide (code = Some 0%Z)); reflexivity.
Qed.

Lemma execWithProgress_value (cmd : jsstring) (options : Options) (w : W h) :
  value (execWithProgress h cmd options w)
  = match spawn h cmd (spawn_options h options) w with
    | Some (child, _) => Returned (exited_zero (ending child))
    | None => Thrown
    end.
Proof.
  unfold execWithProgress, spawn_child, mbind, M_bind. cbv zeta.
  destruct (spawn h cmd (spawn_options h options) w) as [[child w']|];
    cbn [value world events]; [|reflexivity].
  destruct (run_activity on_activity Runner_new (activity child)) as [r out].
  rewrite <- (run_ending_npm r (ending child)).
  destruct (run_ending on_close on_error r (ending child)); reflexivity.
Qed.

Lemma execGoWithProgress_value (cmd : jsstring) (options : Options) (w : W h) :
  value (execGoWithProgress h cmd options w)
  = match spawn h cmd (spawn_options h options) w with
    | Some (child, _) => Returned (exited_zero (ending child))
    | None => Thrown
    end.
Proof.
  unfold execGoWithProgress, spawn_child, mbind, M_bind. cbv zeta.
  destruct (spawn h cmd (spawn_options h options) w) as [[child w']|];
    cbn [value world events]; [|reflexivity].
  destruct (run_activity go_on_activity Runner_new (activity child)) as [r out].
  rewrite <- (run_ending_go r (ending child)).
  destruct (run_ending go_on_close on_error r (ending child)); reflexivity.
Qed.

(** *** Calls of [buildBackend] *)

(** A call of [buildBackend] is one call in the trace, with one result
    when it returns and none when it throws. *)
Lemma buildBackend_trace (targetOS : Platform) (targetArch : Arch) (w : W h) :
  post (buildBackend h targetOS targetArch) w (fun r w1 e1 =>
    backend_calls e1 = [(targetOS, targetArch)]
    /\ backend_results e1 = match r with Returned b => [b] | Thrown => [] end).
Proof.
  destruct (quiet_buildBackend_body targetOS targetArch w) as [Hc Hr].
  unfold buildBackend. walk.
  walk_with (post_self h (buildBackend_body h targetOS targetArch) w)
    as r w1 e1 (-> & -> & ->).
  destruct (value (buildBackend_body h targetOS targetArch w)) as [b|]; walk.
  all: rewrite !backend_calls_app, !backend_results_app, Hc, Hr.
  all: split; reflexivity.
Qed.

Lemma count_true_cons (b : bool) (l : list bool) :
  count_true (b :: l) = ((if b then 1 else 0) + count_true l)%Z.
Proof.
  unfold count_true. destruct b.
  - rewrite filter_cons_True by reflexivity. simpl length. lia.
  - rewrite filter_cons_False by discriminate. lia.
Qed.

Lemma count_true_bounds (l : list bool) :
  (0 <= count_true l <= Z.of_nat (length l))%Z.
Proof.
  induction l as [|b l IH]; [unfold count_true; simpl; lia|].
  rewrite count_true_cons. simpl length. destruct b; lia.
Qed.

Lemma count_true_full (l : list bool) :
  count_true l = Z.of_nat (length l) <-> l = replicate (length l) true.
Proof.
  induction l as [|b l IH]; [unfold count_true; simpl; tauto|].
  rewrite count_true_cons. simpl length. simpl replicate.
  pose proof (count_true_bounds l). destruct b; split; intros H0.
  - f_equal. apply IH. lia.
  - injection H0 as H0. apply IH in H0. lia.
  - lia.
  - discriminate H0.
Qed.

(** The loop of [crossCompile]: when it returns, every target was called
    and returned, and the count is that of the [true] results; when it
    throws, the targets called are those up to the call that threw. *)
Lemma compile_loop_trace (len : Z) (todo : list Target) (successCount : Z)
    (w : W h) :
  post (compile_loop h len todo successCount) w (fun r w1 e1 =>
    match r with
    | Returned n =>
      backend_calls e1 = map (fun target => (os target, arch target)) todo
      /\ length (backend_results e1) = length todo
      /\ n = (successCount + count_true (backend_results e1))%Z
    | Thrown =>
      (length (backend_results e1) < length todo)%nat
      /\ backend_calls e1
         = take (S (length (backend_results e1)))
             (map (fun target => (os target, arch target)) todo)
    end).
Proof.
  revert successCount w.
  induction todo as [|target todo IH]; intros successCount w.
  - simpl compile_loop. walk. unfold count_true. simpl. repeat split; lia.
  - simpl compile_loop. walk.
    walk_with (buildBackend_trace (os target) (arch target) w) as r w1 e1 [Hc Hr].
    destruct r as [b|].
    + walk.
      walk_with (IH (if b then (successCount + 1)%Z else successCount) w1)
        as r2 w2 e2 H2.
      rewrite !backend_calls_app, !backend_results_app.
      rewrite !backend_calls_display, !backend_results_display, Hc, Hr.
      cbn [app map length].
      destruct r2 as [n|].
      * destruct H2 as (-> & -> & ->). rewrite count_true_cons.
        repeat split. destruct b; lia.
      * destruct H2 as (Hlt & ->). split; [lia | reflexivity].
    + rewrite !backend_calls_app, !backend_results_app.
      rewrite !backend_calls_display, !backend_results_display, Hc, Hr.
      cbn [app map length]. split; [lia | reflexivity].
Qed.

End Builds.

Section CrossCompile.

Context (h : Host).

Lemma backend_results_snoc_display (t : list event) (d : display) :
  backend_results (t ++ [Display d]) = backend_results t.
Proof. rewrite backend_results_app. apply app_nil_r. Qed.

(** [crossCompile] after a successful web build. *)
Lemma crossCompile_trace (w : W h) :
  value (buildWeb h w) = Returned true ->
  post (crossCompile h) w (fun r w1 e1 =>
    match r with
    | Returned ok =>
      backend_calls e1 = six_targets
      /\ length (backend_results e1) = 6%nat
      /\ ok = (count_true (backend_results e1) =? 6)%Z
      /\ exists before after : list event,
           e1 = before
                ++ Display (ConsoleLog
                     (colors.green ++ u "[SUCCESS]" ++ colors.reset ++ u " "
                      ++ u "交叉编译完成！成功: "
                      ++ of_int (count_true (backend_results e1))
                      ++ u "/" ++ of_int 6))
                :: after
           /\ backend_results before = backend_results e1
    | Thrown =>
      (length (backend_results e1) < 6)%nat
      /\ backend_calls e1 = take (S (length (backend_results e1))) six_targets
    end).
Proof.
  intros Hweb. destruct (quiet_buildWeb h w) as [Hwc Hwr].
  unfold crossCompile. cbv zeta.
  change (Z.of_nat (length targets)) with 6%Z.
  walk.
  walk_with (post_self h (buildWeb h) w) as r w1 e1 (-> & -> & ->).
  rewrite Hweb. cbv beta iota delta [negb]. walk.
  walk_with (compile_loop_trace h 6 targets 0 (world (buildWeb h w)))
    as r2 w2 e2 H2.
  destruct r2 as [n|].
  - destruct H2 as (Hc & Hl & Hn). rewrite Z.add_0_l in Hn. walk.
    assert (Hresults :
      backend_results
        (map Display [log.title (u "交叉编译所有平台")] ++ events (buildWeb h w)
         ++ map Display
              [log.info (u "准备编译 " ++ of_int 6 ++ u " 个平台版本..." ++ [LF])]
         ++ e2 ++ map Display (crossCompile_summary h n 6) ++ [])
      = backend_results e2).
    { rewrite !backend_results_app, !backend_results_display, Hwr.
      cbn [app]. apply app_nil_r. }
    rewrite Hresults, <- Hn.
    rewrite !backend_calls_app, !backend_calls_display, Hwc.
    cbn [app]. rewrite app_nil_r.
    split; [exact Hc|]. split; [exact Hl|]. split; [reflexivity|].
    exists (map Display [log.title (u "交叉编译所有平台")] ++ events (buildWeb h w)
            ++ map Display
                 [log.info (u "准备编译 " ++ of_int 6 ++ u " 个平台版本..." ++ [LF])]
            ++ e2 ++ [Display (ConsoleLog ([LF] ++ rule))]).
    eexists. split.
    + unfold crossCompile_summary, crossCompile_report, log.success, log_line.
      cbn [map]. rewrite <- !app_assoc. cbn [app]. reflexivity.
    + rewrite !backend_results_app, !backend_results_display, Hwr.
      cbn [app]. apply app_nil_r.
  - destruct H2 as (Hl & Hc).
    rewrite !backend_calls_app, !backend_results_app.
    rewrite !backend_calls_display, !backend_results_display, Hwc, Hwr.
    cbn [app]. split; [exact Hl | exact Hc].
Qed.

End CrossCompile.

(** *** Hosts on which nothing throws *)

Section Returns.

Context (h : Host).

Hypothesis mkdirSync_returns : forall path w, mkdirSync h path w <> None.
Hypothesis spawn_returns : forall cmd options w, spawn h cmd options w <> None.

Lemma execGoWithProgress_returns (cmd : jsstring) (options : Options) (w : W h) :
  post (execGoWithProgress h cmd options) w (fun r _ _ => r <> Thrown).
Proof.
  unfold post. rewrite execGoWithProgress_value.
  destruct (spawn h cmd (spawn_options h options) w) as [[child w']|] eqn:Hspawn.
  - discriminate.
  - exfalso. exact (spawn_returns _ _ _ Hspawn).
Qed.

Lemma buildBackend_returns (targetOS : Platform) (targetArch : Arch) (w : W h) :
  post (buildBackend h targetOS targetArch) w (fun r _ _ => r <> Thrown).
Proof.
  unfold buildBackend, buildBackend_body, checkCommand, getVersion. cbv zeta.
  walk; try discriminate;
    try (exfalso; eapply mkdirSync_returns; eassumption).
  all: walk_with execGoWithProgress_returns as r1 w1 e1 Hr1.
  all: destruct r1 as [tidied|]; [|congruence]; walk; try discriminate.
  all: walk_with execGoWithProgress_returns as r2 w2 e2 Hr2.
  all: destruct r2 as [compiled|]; [|congruence]; walk; discriminate.
Qed.

Lemma compile_loop_returns (len : Z) (todo : list Target) (successCount : Z)
    (w : W h) :
  post (compile_loop h len todo successCount) w (fun r _ _ => r <> Thrown).
Proof.
  revert successCount w.
  induction todo as [|target todo IH]; intros successCount w.
  - simpl compile_loop. walk. discriminate.
  - simpl compile_loop. walk.
    walk_with (buildBackend_returns (os target) (arch target) w) as r w1 e1 Hr.
    destruct r as [b|]; [|congruence]. walk.
    walk_with (IH (if b then (successCount + 1)%Z else successCount) w1)
      as r2 w2 e2 H2.
    exact H2.
Qed.

Lemma crossCompile_returns (w : W h) :
  value (buildWeb h w) = Returned true -> value (crossCompile h w) <> Thrown.
Proof.
  intros Hweb.
  change (post (crossCompile h) w (fun r _ _ => r <> Thrown)).
  unfold crossCompile. cbv zeta. walk.
  walk_with (post_self h (buildWeb h) w) as r w1 e1 (-> & -> & ->).
  rewrite Hweb. cbv beta iota delta [negb]. walk.
  walk_with (compile_loop_returns (Z.of_nat (length targets)) targets 0
               (world (buildWeb h w))) as r2 w2 e2 H2.
  destruct r2 as [n|]; [|congruence]. walk. discriminate.
Qed.

End Returns.

(** The runners on small inputs. *)

Example download_label :
  lastStatus (fst (go_parseOutput Runner_new
    (u "go: downloading github.com/gin-gonic/gin v1.9.1" ++ [LF])))
  = u "gin"
  /\ progressValue (fst (go_parseOutput Runner_new
    (u "go: downloading github.com/gin-gonic/gin v1.9.1" ++ [LF])))
  = 2%float.
Proof. split; vm_compute; reflexivity. Qed.

Example install_lines :
  let r := fst (parseOutput Runner_new
    (u "npm timing idealTree Completed" ++ [LF] ++
     u "npm http fetch GET 200 https://registry.npmmirror.com/x" ++ [LF])) in
  lastStatus r = u "下载包..." /\ progressValue r = (0.3 + 0.2)%float.
Proof. split; vm_compute; reflexivity. Qed.

Example spawn_failure_resolves_once :
  run_ending on_close on_error Runner_new (ending spawn_failure)
  = (clear ++ [log.error (u "执行失败: spawn /bin/sh ENOENT")]
     ++ clear ++ [log.error (u "安装失败")], false).
Proof. vm_compute. reflexivity. Qed.

(** *** Main results *)

Lemma Returned_inj {A} (a b : A) : Returned a = Returned b -> a = b.
Proof. intros H. injection H as H. exact H. Qed.

Example mixed_world_run :
  value (crossCompile demo_host mixed_world) = Returned false
  /\ backend_results (events (crossCompile demo_host mixed_world))
     = [true; false; false; false; true; true]
  /\ (let t := events (crossCompile demo_host mixed_world) in
      t !! (length t - 4)%nat)
     = Some (Display (log.success (u "交叉编译完成！成功: 3/6"))).
Proof.
  split; [vm_compute; reflexivity|].
  split; vm_compute; reflexivity.
Qed.

(** C2. After a successful web build, the number of [true] results that
    [buildBackend] returned to [crossCompile] is at most 6, and
    [crossCompile] returns [true] exactly when there are six results and
    all are [true]. When [crossCompile] returns, it has called the six
    targets and got six results, and after the last of them it has printed
    the line that reports the number of [true] results out of 6. When it
    throws instead, a call of [buildBackend] threw: there are fewer than
    six results and nothing is returned. *)
Theorem crossCompile_success_count (h : Host) (w : W h) :
  value (buildWeb h w) = Returned true ->
  let run := crossCompile h w in
  let results := backend_results (events run) in
  (0 <= count_true results <= 6)%Z
  /\ (value run = Returned true <-> results = [true; true; true; true; true; true])
  /\ (forall ok : bool, value run = Returned ok ->
        backend_calls (events run) = six_targets
        /\ length results = 6%nat
        /\ exists before after : list event,
             events run
             = before
               ++ Display (ConsoleLog
                    (colors.green ++ u "[SUCCESS]" ++ colors.reset ++ u " "
                     ++ u "交叉编译完成！成功: " ++ of_int (count_true results)
                     ++ u "/" ++ of_int 6))
               :: after
             /\ backend_results before = results)
  /\ (value run = Thrown -> (length results < 6)%nat).
Proof.
  intros Hweb run results. subst run results.
  pose proof (crossCompile_trace h w Hweb) as H. unfold post in H.
  revert H.
  generalize (value (crossCompile h w)) (events (crossCompile h w)).
  intros r e H.
  pose proof (count_true_bounds (backend_results e)) as Hbounds.
  pose proof (count_true_full (backend_results e)) as Hfull.
  destruct r as [ok|].
  - destruct H as (Hcalls & Hlen & Hok & Hreport).
    rewrite Hlen in Hbounds, Hfull.
    split; [exact Hbounds|]. split.
    + split.
      * intros Htrue. apply Returned_inj in Htrue. rewrite Htrue in Hok.
        symmetry in Hok. apply Z.eqb_eq in Hok. apply Hfull. exact Hok.
      * intros Hall. f_equal. rewrite Hok. apply Z.eqb_eq. apply Hfull. exact Hall.
    + split; [|discriminate].
      intros ok' _. split; [exact Hcalls|]. split; [exact Hlen|]. exact Hreport.
  - destruct H as (Hlen & _).
    split; [lia|]. split.
    + split; [discriminate|].
      intros Hall. rewrite Hall in Hlen. simpl in Hlen. lia.
    + split; [discriminate|]. intros _. exact Hlen.
Qed.

Lemma crossCompile_success_count_witness :
  value (buildWeb demo_host mixed_world) = Returned true
  /\ count_true (backend_results (events (crossCompile demo_host mixed_world)))
     = 3%Z
  /\ (0 <= count_true (backend_results (events (crossCompile demo_host mixed_world)))
      <= 6)%Z.
Proof.
  assert (Hweb : value (buildWeb demo_host mixed_world) = Returned true)
    by (vm_compute; reflexivity).
  split; [exact Hweb|]. split; [vm_compute; reflexivity|].
  destruct (crossCompile_success_count demo_host mixed_world Hweb)
    as (H & _).
  exact H.
Defined.

(** C3. After a successful web build, a run of [crossCompile] in which
    no call of [buildBackend] throws calls [buildBackend] once for each of
    the six targets, in the order of the list, whatever the calls return:
    for linux/amd64, linux/arm64, windows/amd64, windows/arm64,
    darwin/amd64 and darwin/arm64. No call throws on a host whose
    [mkdirSync] and [spawn] do not throw, and then [crossCompile] returns.
    A call that throws ends the loop, and [crossCompile] throws: the
    targets called are then those up to the one whose call did not
    return. *)
Theorem crossCompile_calls_every_target (h : Host) (w : W h) :
  value (buildWeb h w) = Returned true ->
  let run := crossCompile h w in
  let calls := backend_calls (events run) in
  let results := backend_results (events run) in
  ((forall path w', mkdirSync h path w' <> None) ->
   (forall cmd options w', spawn h cmd options w' <> None) ->
   calls = six_targets /\ length results = 6%nat)
  /\ (forall ok : bool, value run = Returned ok ->
      calls = six_targets /\ length results = 6%nat)
  /\ (value run = Thrown ->
      (length results < 6)%nat
      /\ calls = take (S (length results)) six_targets)
  /\ map (fun target : Platform * Arch =>
            (goos_of (platform_name (fst target)),
             goarch_of (arch_name (snd target)))) six_targets
     = [(u "linux", u "amd64"); (u "linux", u "arm64");
        (u "windows", u "amd64"); (u "windows", u "arm64");
        (u "darwin", u "amd64"); (u "darwin", u "arm64")].
Proof.
  intros Hweb run calls results. subst run calls results.
  pose proof (crossCompile_trace h w Hweb) as H. unfold post in H.
  pose proof (fun Hmkdir Hspawn => crossCompile_returns h Hmkdir Hspawn w Hweb)
    as Hreturns.
  revert H Hreturns.
  generalize (value (crossCompile h w)) (events (crossCompile h w)).
  intros r e H Hreturns.
  destruct r as [ok|].
  - destruct H as (Hcalls & Hlen & _).
    split; [intros _ _; split; assumption|].
    split; [intros ok' _; split; assumption|].
    split; [discriminate | vm_compute; reflexivity].
  - split; [intros Hmkdir Hspawn; destruct (Hreturns Hmkdir Hspawn eq_refl)|].
    split; [discriminate|].
    split; [intros _; exact H | vm_compute; reflexivity].
Qed.

Lemma crossCompile_calls_every_target_witness :
  value (buildWeb demo_host mixed_world) = Returned true
  /\ backend_results (events (crossCompile demo_host mixed_world))
     = [true; false; false; false; true; true]
  /\ backend_calls (events (crossCompile demo_host mixed_world)) = six_targets.
Proof.
  assert (Hweb : value (buildWeb demo_host mixed_world) = Returned true)
    by (vm_compute; reflexivity).
  split; [exact Hweb|]. split; [vm_compute; reflexivity|].
  destruct (crossCompile_calls_every_target demo_host mixed_world Hweb)
    as (H & _).
  apply H.
  - intros path w'. simpl. discriminate.
  - intros cmd options w'. simpl. destruct (snd w'); discriminate.
Defined.

(** C3 as it is stated does not hold: on this host the web build
    succeeds and [mkdirSync] throws, so that the first call of
    [buildBackend] throws out of the loop; one target is called, not
    six. *)
Lemma crossCompile_throw_ends_loop :
  value (buildWeb locked_host tt) = Returned true
  /\ value (crossCompile locked_host tt) = Thrown
  /\ backend_calls (events (crossCompile locked_host tt)) = [(Linux, X64)]
  /\ backend_calls (events (crossCompile locked_host tt)) <> six_targets.
Proof.
  split; [vm_compute; reflexivity|].
  split; [vm_compute; reflexivity|].
  assert (H : backend_calls (events (crossCompile locked_host tt)) = [(Linux, X64)])
    by (vm_compute; reflexivity).
  split; [exact H|]. rewrite H. discriminate.
Qed.

(** C4. The promise of both runners is settled by [spawn] and by the end
    of the child alone. Once [spawn] has returned a child, the promise
    resolves: to [true] when the child closes with exit code 0, to [false]
    when it closes with any other code (or with none, after a signal), and
    to [false] when the child reports with ['error'] that it could not be
    started. When [spawn] itself throws, the promise is rejected. *)
Theorem runner_resolves (h : Host) (cmd : jsstring) (options : Options)
    (w : W h) :
  let settled :=
    match spawn h cmd (spawn_options h options) w with
    | Some (child, _) =>
      Returned match ending child with
               | Closes code => bool_decide (code = Some 0%Z)
               | Errors _ _ => false
               end
    | None => Thrown
    end in
  value (execWithProgress h cmd options w) = settled
  /\ value (execGoWithProgress h cmd options w) = settled.
Proof.
  split; [apply execWithProgress_value | apply execGoWithProgress_value].
Qed.

(** C4 as it is stated does not hold: on this host [spawn] throws, and
    the promise of either runner is rejected rather than resolved to
    [false]. *)
Lemma runner_rejects :
  value (execWithProgress locked_host
           (u "npm install --force --registry=https://registry.npmmirror.com --timing")
           no_options tt) = Thrown
  /\ value (execGoWithProgress locked_host (u "go mod tidy") no_options tt) = Thrown
  /\ value (execWithProgress locked_host
              (u "npm install --force --registry=https://registry.npmmirror.com --timing")
              no_options tt) <> Returned false.
Proof. repeat split; vm_compute; discriminate || reflexivity. Qed.

(** C5. Two runs of a runner whose children end the same way, or for
    which [spawn] throws in both, settle the promise the same way,
    whatever the children wrote: the output moves the label and the
    progress value only. *)
Theorem output_does_not_decide (h1 h2 : Host) (cmd1 cmd2 : jsstring)
    (options1 options2 : Options) (w1 : W h1) (w2 : W h2) :
  option_map (fun r => ending (fst r))
             (spawn h1 cmd1 (spawn_options h1 options1) w1)
  = option_map (fun r => ending (fst r))
               (spawn h2 cmd2 (spawn_options h2 options2) w2) ->
  value (execWithProgress h1 cmd1 options1 w1)
    = value (execWithProgress h2 cmd2 options2 w2)
  /\ value (execGoWithProgress h1 cmd1 options1 w1)
    = value (execGoWithProgress h2 cmd2 options2 w2).
Proof.
  intros H.
  rewrite !execWithProgress_value, !execGoWithProgress_value.
  destruct (spawn h1 cmd1 (spawn_options h1 options1) w1) as [[child1 w1']|];
    destruct (spawn h2 cmd2 (spawn_options h2 options2) w2) as [[child2 w2']|];
    simpl in H; try discriminate H.
  - injection H as H. rewrite H. split; reflexivity.
  - split; reflexivity.
Qed.

Lemma output_does_not_decide_witness :
  value (execGoWithProgress demo_host (u "go mod tidy") no_options
           (true, [quiet_success]))
  = value (execGoWithProgress demo_host (u "go mod tidy") no_options
             (true, [noisy_success]))
  /\ events (execGoWithProgress demo_host (u "go mod tidy") no_options
               (true, [quiet_success]))
     <> events (execGoWithProgress demo_host (u "go mod tidy") no_options
                  (true, [noisy_success])).
Proof.
  split.
  - apply (output_does_not_decide demo_host demo_host (u "go mod tidy")
             (u "go mod tidy") no_options no_options
             (true, [quiet_success]) (true, [noisy_success])).
    reflexivity.
  - vm_compute. discriminate.
Defined.

(** C6. [buildAll] runs [buildWeb] first; the events of [buildWeb] hold no
    call of [buildBackend], and what follows holds one call, for the host's
    own platform, when [buildWeb] returned [true], and none when it
    returned [false], in which case [buildAll] returns [false], and none
    when it threw, in which case [buildAll] throws. *)
Theorem buildAll_short_circuit (h : Host) (w : W h) :
  exists rest : list event,
    events (buildAll h w)
      = Display (log.title (u "完整构建")) :: events (buildWeb h w) ++ rest
    /\ backend_calls (events (buildWeb h w)) = []
    /\ backend_calls rest
       = match value (buildWeb h w) with
         | Returned true => [(process_platform h, process_arch h)]
         | _ => []
         end
    /\ (value (buildWeb h w) = Returned false ->
        value (buildAll h w) = Returned false
        /\ backend_calls (events (buildAll h w)) = [])
    /\ (value (buildWeb h w) = Thrown ->
        value (buildAll h w) = Thrown
        /\ backend_calls (events (buildAll h w)) = []).
Proof.
  destruct (quiet_buildWeb h w) as [Hweb _].
  assert (H : post (buildAll h) w (fun r w1 e1 =>
    exists rest : list event,
      e1 = map Display [log.title (u "完整构建")] ++ events (buildWeb h w) ++ rest
      /\ backend_calls rest
         = match value (buildWeb h w) with
           | Returned true => [(process_platform h, process_arch h)]
           | _ => []
           end
      /\ (value (buildWeb h w) = Returned false -> r = Returned false)
      /\ (value (buildWeb h w) = Thrown -> r = Thrown))).
  { unfold buildAll. walk.
    walk_with (post_self h (buildWeb h) w) as r w1 e1 (-> & -> & ->).
    destruct (value (buildWeb h w)) as [[|]|]; cbv beta iota delta [negb].
    - walk.
      walk_with (buildBackend_trace h (process_platform h) (process_arch h)
                   (world (buildWeb h w))) as r2 w2 e2 [Hcall _].
      destruct r2 as [[|]|]; walk.
      all: eexists; split; [reflexivity|].
      all: rewrite ?backend_calls_app, ?backend_calls_display, Hcall.
      all: repeat split; try reflexivity; discriminate.
    - walk. eexists. split; [reflexivity|].
      rewrite ?backend_calls_app, ?backend_calls_display.
      repeat split; try reflexivity; discriminate.
    - exists []. rewrite app_nil_r. repeat split; try reflexivity; discriminate. }
  unfold post in H. destruct H as (rest & Hevents & Hrest & Hfalse & Hthrown).
  exists rest. split; [exact Hevents|]. split; [exact Hweb|].
  split; [exact Hrest|]. split.
  - intros Hv. split; [exact (Hfalse Hv)|].
    rewrite Hevents, !backend_calls_app, backend_calls_display, Hweb, Hrest, Hv.
    reflexivity.
  - intros Hv. split; [exact (Hthrown Hv)|].
    rewrite Hevents, !backend_calls_app, backend_calls_display, Hweb, Hrest, Hv.
    reflexivity.
Qed.

Lemma buildAll_short_circuit_witness :
  value (buildWeb demo_host bare_world) = Returned false
  /\ value (buildAll demo_host bare_world) = Returned false
  /\ backend_calls (events (buildAll demo_host bare_world)) = [].
Proof.
  assert (Hweb : value (buildWeb demo_host bare_world) = Returned false)
    by (vm_compute; reflexivity).
  split; [exact Hweb|].
  destruct (buildAll_short_circuit demo_host bare_world)
    as (rest & _ & _ & _ & H & _).
  exact (H Hweb).
Defined.

End BuildProofs.

(* ===================================================================== *)
(** ** Properties of the launcher *)
(* ===================================================================== *)

Module LauncherProofs.
Import Launcher.

Example demo_run :
  snd (main linux_host [ChildExit (Some 3%Z) None]) = Exit 3.
Proof. vm_compute. reflexivity. Qed.

Example demo_parse :
  parse_env demo_env_file = {[ u "PORT" := u "8080"; u "SQL_DSN" := u "local" ]}.
Proof. vm_compute. reflexivity. Qed.

Example demo_spawns :
  spawns (main linux_host []) =
  [Spawn (u "/opt/new-api/new-api-linux-amd64")
     {[ u "PATH" := u "/usr/bin"; u "PORT" := u "8080"; u "SQL_DSN" := u "local" ]}].
Proof. vm_compute. reflexivity. Qed.

Example key_value_first_equals :
  match_key_value (u "A=b=c") = Some (u "A", u "b=c").
Proof. reflexivity. Qed.

Example key_value_empty_key : match_key_value (u "=x") = None.
Proof. reflexivity. Qed.

Example key_value_inner_cr : match_key_value (u "A=b" ++ [CR] ++ u "c") = None.
Proof. reflexivity. Qed.

Example proto_line : env_line ∅ (u "__proto__=x") = ∅.
Proof. reflexivity. Qed.

Example lone_quote : env_line ∅ (u "A=" ++ [DQUOTE]) = {[ u "A" := [] ]}.
Proof. reflexivity. Qed.

Import JSFacts.

Lemma env_line_comment (config : dict) (rest : jsstring) :
  env_line config (HASH :: rest) = config.
Proof.
  unfold env_line. rewrite trim_cons by reflexivity.
  reflexivity.
Qed.

Lemma env_line_blank (config : dict) (line : jsstring) :
  forallb is_space line = true -> env_line config line = config.
Proof.
  intros H. unfold env_line. rewrite (trim_all_space _ H). reflexivity.
Qed.

Lemma match_key_value_none (line : jsstring) :
  EQUALS ∉ line -> match_key_value line = None.
Proof.
  intros H. unfold match_key_value. rewrite span_all.
  - destruct line; reflexivity.
  - intros x Hx. apply negb_true_iff. apply N.eqb_neq. intros ->. auto.
Qed.

Lemma env_line_malformed (config : dict) (line : jsstring) :
  EQUALS ∉ line -> env_line config line = config.
Proof.
  intros H. unfold env_line.
  rewrite match_key_value_none.
  - destruct (_ || _); reflexivity.
  - intros Hin. apply H. apply trim_elem. exact Hin.
Qed.

Lemma env_line_port (config : dict) :
  env_line config port_line = <[u "PORT" := u "8080"]> config.
Proof. reflexivity. Qed.

Lemma env_line_port_single (config : dict) :
  env_line config port_line_single = <[u "PORT" := u "8080"]> config.
Proof. reflexivity. Qed.

Lemma parse_env_last_line (pre line : jsstring) :
  LF ∉ line ->
  parse_env (pre ++ LF :: line) =
  env_line (fold_left env_line (split LF pre) ∅) line.
Proof.
  intros H. unfold parse_env, split.
  rewrite split_by_app by reflexivity.
  rewrite (split_by_none _ line).
  - rewrite fold_left_app. reflexivity.
  - intros x Hx. apply N.eqb_neq. intros <-. auto.
Qed.

Lemma parse_env_middle_line (pre line post : jsstring) :
  LF ∉ line ->
  (forall config, env_line config line = config) ->
  parse_env (pre ++ LF :: line ++ LF :: post) = parse_env (pre ++ LF :: post).
Proof.
  intros Hlf Hskip. unfold parse_env, split.
  rewrite !split_by_app by reflexivity.
  rewrite (split_by_none _ line).
  - rewrite !fold_left_app. simpl. rewrite Hskip. reflexivity.
  - intros x Hx. apply N.eqb_neq. intros <-. auto.
Qed.

(** C7. [loadEnv] folds [env_line] over every line of the file. The line
    PORT="8080" (and PORT='8080') sets PORT to 8080 with the quotes
    stripped; a line beginning with [#] and a blank line leave the mapping
    as it is; so does a line without [=], and the lines after it are still
    loaded. *)
Theorem loadEnv_lines :
  (forall (h : Host) (envPath : jsstring),
     existsSync h envPath = true ->
     loadEnv h envPath =
     ([], Continue (fold_left env_line (split LF (readFileSync h envPath)) ∅)))
  /\ (forall config : dict,
        env_line config port_line = <[u "PORT" := u "8080"]> config
        /\ env_line config port_line_single = <[u "PORT" := u "8080"]> config)
  /\ (forall pre : jsstring,
        parse_env (pre ++ LF :: port_line) !! u "PORT" = Some (u "8080"))
  /\ (forall (config : dict) (rest : jsstring),
        env_line config (HASH :: rest) = config)
  /\ (forall (config : dict) (line : jsstring),
        forallb is_space line = true -> env_line config line = config)
  /\ (forall (config : dict) (line : jsstring),
        EQUALS ∉ line -> env_line config line = config)
  /\ (forall pre line post : jsstring,
        EQUALS ∉ line -> LF ∉ line ->
        parse_env (pre ++ LF :: line ++ LF :: post) = parse_env (pre ++ LF :: post)).
Proof.
  split. { intros h envPath H. unfold loadEnv. rewrite H. reflexivity. }
  split. { intros config. split; [apply env_line_port | apply env_line_port_single]. }
  split.
  { intros pre. rewrite parse_env_last_line.
    - rewrite env_line_port. apply lookup_insert_eq.
    - by_computation. }
  split. { apply env_line_comment. }
  split. { apply env_line_blank. }
  split. { apply env_line_malformed. }
  intros pre line post Heq Hlf. apply parse_env_middle_line; [exact Hlf|].
  intros config. apply env_line_malformed. exact Heq.
Qed.

Lemma loadEnv_lines_witness :
  (EQUALS ∉ u "this line has no separator")
  /\ (LF ∉ u "this line has no separator")
  /\ parse_env (u "A=1" ++ LF :: u "this line has no separator" ++ LF :: u "B=2")
     = parse_env (u "A=1" ++ LF :: u "B=2").
Proof.
  assert (Heq : EQUALS ∉ u "this line has no separator")
    by by_computation.
  assert (Hlf : LF ∉ u "this line has no separator")
    by by_computation.
  split; [exact Heq|]. split; [exact Hlf|].
  destruct loadEnv_lines as (_ & _ & _ & _ & _ & _ & H).
  exact (H (u "A=1") (u "this line has no separator") (u "B=2") Heq Hlf).
Defined.

(** *** Exits of the script *)

Lemma main_exit (h : Host) (events : list LoopEvent) (t : list event) (code : Z) :
  script h = (t, Exit code) -> main h events = (t, Exit code).
Proof. intros H. unfold main. rewrite H. reflexivity. Qed.

Lemma script_missing_env (h : Host) :
  existsSync h (join h (dirname h) (u ".env")) = false ->
  script h =
  ([ConsoleError (u "❌ 找不到配置文件: " ++ join h (dirname h) (u ".env"))], Exit 1).
Proof. intros H. unfold script, loadEnv. rewrite H. reflexivity. Qed.

(** C8. When the configuration file does not exist, the launcher exits
    with status 1 and has spawned nothing. *)
Theorem missing_env_exits_before_spawn (h : Host) (events : list LoopEvent) :
  existsSync h (join h (dirname h) (u ".env")) = false ->
  exit_status (main h events) = Some 1%Z
  /\ spawns (main h events) = [].
Proof.
  intros H. rewrite (main_exit h events _ _ (script_missing_env h H)).
  split; reflexivity.
Qed.

Lemma missing_env_exits_before_spawn_witness :
  exit_status (main empty_host [ChildExit (Some 0%Z) None]) = Some 1%Z
  /\ spawns (main empty_host [ChildExit (Some 0%Z) None]) = [].
Proof.
  apply (missing_env_exits_before_spawn empty_host). reflexivity.
Defined.

(** *** The locator *)

Lemma platformMap_lookup (p : Platform) :
  platformMap !! platform_name p =
  match p with
  | Win32 => Some (u "windows")
  | Linux => Some (u "linux")
  | Darwin => Some (u "darwin")
  | _ => None
  end.
Proof. destruct p; vm_compute; reflexivity. Qed.

Lemma archMap_lookup (a : Arch) :
  archMap !! arch_name a =
  match a with
  | X64 => Some (u "amd64")
  | Arm64 => Some (u "arm64")
  | _ => None
  end.
Proof. destruct a; vm_compute; reflexivity. Qed.

Lemma getExecutablePath_locator (h : Host) :
  getExecutablePath h =
  match ExecutableLocator (process_platform h) (process_arch h) with
  | Some name =>
    if existsSync h (join h (dirname h) name)
    then ([], Continue (join h (dirname h) name))
    else ([ConsoleError (u "❌ 找不到可执行文件: " ++ name);
           ConsoleError (u "   请确保文件存在于: " ++ dirname h)], Exit 1)
  | None =>
    ([ConsoleError (u "❌ 不支持的平台: " ++ platform_name (process_platform h)
                    ++ u " " ++ arch_name (process_arch h))], Exit 1)
  end.
Proof.
  unfold getExecutablePath, ExecutableLocator.
  rewrite platformMap_lookup, archMap_lookup.
  destruct (process_platform h), (process_arch h);
    match goal with
    | |- context [falsy ?a || falsy ?b] =>
      let v := eval vm_compute in (falsy a || falsy b) in
      change (falsy a || falsy b) with v
    end;
    cbv iota; try reflexivity;
    cbn [default from_option]; unfold id;
    match goal with
    | |- context [existsSync h ?p] => destruct (existsSync h p); reflexivity
    end.
Qed.

(** C9. The file name the launcher looks for is a function of the host's
    platform and architecture alone: [getExecutablePath] returns the path
    of [ExecutableLocator platform arch] in the script's directory, or
    exits. For (win32, x64) the name is new-api-windows-amd64.exe, for
    (linux, arm64) it is new-api-linux-arm64, and [buildBackend] gives its
    artifacts the same two names. *)
Theorem locator_names :
  (forall h : Host,
     getExecutablePath h =
     match ExecutableLocator (process_platform h) (process_arch h) with
     | Some name =>
       if existsSync h (join h (dirname h) name)
       then ([], Continue (join h (dirname h) name))
       else ([ConsoleError (u "❌ 找不到可执行文件: " ++ name);
              ConsoleError (u "   请确保文件存在于: " ++ dirname h)], Exit 1)
     | None =>
       ([ConsoleError (u "❌ 不支持的平台: " ++ platform_name (process_platform h)
                       ++ u " " ++ arch_name (process_arch h))], Exit 1)
     end)
  /\ ExecutableLocator Win32 X64 = Some (u "new-api-windows-amd64.exe")
  /\ ExecutableLocator Linux Arm64 = Some (u "new-api-linux-arm64")
  /\ Build.binaryName_of (Build.goos_of (platform_name Win32))
                         (Build.goarch_of (arch_name X64))
     = u "new-api-windows-amd64.exe"
  /\ Build.binaryName_of (Build.goos_of (platform_name Linux))
                         (Build.goarch_of (arch_name Arm64))
     = u "new-api-linux-arm64".
Proof.
  split; [exact getExecutablePath_locator|].
  repeat split; vm_compute; reflexivity.
Qed.

Lemma locator_unsupported (p : Platform) (a : Arch) :
  a <> X64 -> a <> Arm64 -> ExecutableLocator p a = None.
Proof.
  intros H1 H2. unfold ExecutableLocator. rewrite archMap_lookup.
  destruct (platformMap !! platform_name p); destruct a; congruence.
Qed.

Lemma script_exit_no_spawn (h : Host) (code : Z) :
  snd (script h) = Exit code -> filter (fun e => is_spawn e = true) (fst (script h)) = [].
Proof.
  unfold script, loadEnv.
  destruct (existsSync h (join h (dirname h) (u ".env"))); [|reflexivity].
  rewrite getExecutablePath_locator.
  destruct (ExecutableLocator _ _) as [name|];
    [destruct (existsSync h (join h (dirname h) name))|];
    simpl; intros H; try discriminate H; reflexivity.
Qed.

(** C10. On a host whose architecture is neither x64 nor arm64,
    [getExecutablePath] prints the unsupported-platform error and exits
    with status 1, so that a run of the launcher ends with status 1 and no
    spawn; the build script, for its part, names the ia32 artifact with
    386. *)
Theorem unsupported_arch_exits (h : Host) (events : list LoopEvent) :
  process_arch h <> X64 -> process_arch h <> Arm64 ->
  getExecutablePath h =
    ([ConsoleError (u "❌ 不支持的平台: " ++ platform_name (process_platform h)
                    ++ u " " ++ arch_name (process_arch h))], Exit 1)
  /\ exit_status (main h events) = Some 1%Z
  /\ spawns (main h events) = []
  /\ Build.archMap !! arch_name Ia32 = Some (u "386")
  /\ Build.binaryName_of (Build.goos_of (platform_name Linux))
                         (Build.goarch_of (arch_name Ia32))
     = u "new-api-linux-386".
Proof.
  intros H1 H2.
  assert (Hget : getExecutablePath h =
    ([ConsoleError (u "❌ 不支持的平台: " ++ platform_name (process_platform h)
                    ++ u " " ++ arch_name (process_arch h))], Exit 1)).
  { rewrite getExecutablePath_locator, locator_unsupported by assumption.
    reflexivity. }
  assert (Hscript : exists t, script h = (t, Exit 1)).
  { unfold script, loadEnv.
    destruct (existsSync h (join h (dirname h) (u ".env"))).
    - rewrite Hget. simpl. eauto.
    - simpl. eauto. }
  destruct Hscript as [t Hscript].
  split; [exact Hget|].
  rewrite (main_exit h events t 1 Hscript).
  split; [reflexivity|]. split.
  - unfold spawns. pose proof (script_exit_no_spawn h 1) as H.
    rewrite Hscript in H. apply H. reflexivity.
  - split; vm_compute; reflexivity.
Qed.

Lemma unsupported_arch_exits_witness :
  exit_status (main ia32_host [ChildExit (Some 0%Z) None]) = Some 1%Z
  /\ spawns (main ia32_host [ChildExit (Some 0%Z) None]) = [].
Proof.
  destruct (unsupported_arch_exits ia32_host [ChildExit (Some 0%Z) None])
    as (_ & Hexit & Hspawn & _); [discriminate | discriminate |].
  split; [exact Hexit | exact Hspawn].
Defined.

(** *** The exit of the child *)

Lemma code_or_zero_some (c : Z) : code_or_zero (Some c) = c.
Proof.
  unfold code_or_zero. destruct (Z.eqb_spec c 0); congruence.
Qed.

(** Signals received by the launcher are forwarded and leave it running;
    the first ['exit'] event of the child ends it. *)
Lemma event_loop_exit (pre post : list LoopEvent) (code : option Z)
    (signal : option jsstring) :
  forallb is_signal pre = true ->
  snd (event_loop (pre ++ ChildExit code signal :: post))
  = Exit (code_or_zero code).
Proof.
  induction pre as [|e pre IH]; intros Hpre.
  - simpl. destruct code, signal; reflexivity.
  - simpl in Hpre. apply andb_prop in Hpre as [He Hpre].
    specialize (IH Hpre).
    destruct e; try discriminate He; simpl;
      destruct (event_loop (pre ++ ChildExit code signal :: post));
      simpl in *; subst; reflexivity.
Qed.

(** C1, as the script has it. Once the script has spawned the child, the
    launcher exits with the child's exit code when the child exits
    normally, and with status 0 when a signal terminated the child (its
    exit code is then [null], and [null || 0] is 0). *)
Theorem child_exit_relayed (h : Host) (pre post : list LoopEvent)
    (code : option Z) (signal : option jsstring) :
  exit_status (script h) = None ->
  forallb is_signal pre = true ->
  exit_status (main h (pre ++ ChildExit code signal :: post))
  = Some (match code with Some c => c | None => 0%Z end).
Proof.
  intros Hscript Hpre. unfold exit_status, main in *.
  destruct (script h) as [t [[]|c]]; [|discriminate Hscript].
  pose proof (event_loop_exit pre post code signal Hpre) as Hloop.
  simpl. destruct (event_loop _) as [t' r]. simpl in *. subst r.
  destruct code as [c|]; [rewrite code_or_zero_some|]; reflexivity.
Qed.

Lemma child_exit_relayed_witness :
  exit_status (main linux_host [ProcessSIGINT; ChildExit (Some 3%Z) None])
  = Some 3%Z.
Proof.
  apply (child_exit_relayed linux_host [ProcessSIGINT] [] (Some 3%Z) None);
    vm_compute; reflexivity.
Defined.

(** C1 with a non-zero status after a signal does not hold: the child of
    this run is terminated by SIGTERM and the launcher exits with status
    0. *)
Lemma signal_exit_status_zero :
  exit_status (script linux_host) = None
  /\ exit_status
       (main linux_host [ProcessSIGTERM; ChildExit None (Some (u "SIGTERM"))])
     = Some 0%Z
  /\ ~ (exists code : Z,
          exit_status
            (main linux_host [ProcessSIGTERM; ChildExit None (Some (u "SIGTERM"))])
          = Some code /\ code <> 0%Z).
Proof.
  assert (H : exit_status
       (main linux_host [ProcessSIGTERM; ChildExit None (Some (u "SIGTERM"))])
     = Some 0%Z) by (vm_compute; reflexivity).
  split; [vm_compute; reflexivity|]. split; [exact H|].
  intros (code & Hcode & Hne). rewrite H in Hcode. congruence.
Qed.

End LauncherProofs.

(* ===================================================================== *)
(** ** More on the launcher *)
(* ===================================================================== *)

Module LauncherExtras.
Import Launcher JSFacts LauncherProofs.

(** *** Trimming *)

Lemma trimStart_app (l m : jsstring) (x : N) :
  is_space x = false -> trimStart (l ++ x :: m) = trimStart l ++ x :: m.
Proof.
  intros Hx. induction l as [|d l IH]; simpl.
  - rewrite Hx. reflexivity.
  - destruct (is_space d); [exact IH | reflexivity].
Qed.

Lemma trimStart_blank (ws s : jsstring) :
  blank ws = true -> trimStart (ws ++ s) = trimStart s.
Proof.
  induction ws as [|c ws IH]; simpl; [reflexivity|].
  intros H. apply andb_prop in H as [Hc Hws]. rewrite Hc. auto.
Qed.

Lemma blank_rev (ws : jsstring) : blank ws = true -> blank (rev ws) = true.
Proof.
  unfold blank. rewrite !forallb_forall. intros H x Hx.
  apply H. apply in_rev. exact Hx.
Qed.

Lemma tight_inv (s : jsstring) :
  tight s = true ->
  (exists c t, s = c :: t /\ is_space c = false)
  /\ (exists t d, s = t ++ [d] /\ is_space d = false).
Proof.
  unfold tight. destruct s as [|c t]; [discriminate|].
  destruct (last (c :: t)) as [d|] eqn:Hlast; [|discriminate].
  intros H. apply andb_prop in H as [Hc Hd].
  apply negb_true_iff in Hc, Hd. split; [eauto|].
  apply last_Some in Hlast as [t' Ht']. eauto.
Qed.

Lemma tight_intro (c d : N) (m : jsstring) :
  is_space c = false -> is_space d = false -> tight (c :: m ++ [d]) = true.
Proof.
  intros Hc Hd. unfold tight.
  change (last (c :: m ++ [d])) with (last ((c :: m) ++ [d])).
  rewrite last_snoc, Hc, Hd. reflexivity.
Qed.

(** White space around a tight text is what [trim] removes. *)
Lemma trim_padded (ws1 s ws2 : jsstring) :
  blank ws1 = true -> blank ws2 = true -> tight s = true ->
  trim (ws1 ++ s ++ ws2) = s.
Proof.
  intros H1 H2 Hs. destruct (tight_inv s Hs) as [(c & t & Hct & Hc) (t' & d & Htd & Hd)].
  unfold trim. rewrite (trimStart_blank ws1 _ H1).
  replace (trimStart (s ++ ws2)) with (s ++ ws2)
    by (rewrite Hct; simpl; rewrite Hc; reflexivity).
  rewrite rev_app_distr, (trimStart_blank _ _ (blank_rev ws2 H2)).
  rewrite Htd, rev_app_distr. simpl. rewrite Hd. simpl.
  rewrite rev_involutive. reflexivity.
Qed.

Lemma trimStart_head (s : jsstring) :
  trimStart s = [] \/ exists c t, trimStart s = c :: t /\ is_space c = false.
Proof.
  induction s as [|c s IH]; simpl; [auto|].
  destruct (is_space c) eqn:Hc; [exact IH | eauto].
Qed.

(** What [trim] returns is empty or tight. *)
Lemma trim_tight (s : jsstring) : trim s = [] \/ tight (trim s) = true.
Proof.
  unfold trim.
  destruct (trimStart_head s) as [->|(c & t & -> & Hc)]; [left; reflexivity|].
  right. simpl rev at 2. rewrite (trimStart_app _ _ _ Hc), rev_app_distr.
  simpl. unfold tight. rewrite last_cons.
  destruct (trimStart_head (rev t)) as [->|(d & t' & -> & Hd)]; simpl.
  - rewrite Hc. reflexivity.
  - rewrite last_snoc, Hc, Hd. reflexivity.
Qed.

(** *** The pattern of a line *)

Lemma span_app (p : N -> bool) (a b : jsstring) (y : N) :
  (forall x, x ∈ a -> p x = true) -> p y = false ->
  span p (a ++ y :: b) = (a, y :: b).
Proof.
  intros Ha Hy. induction a as [|c a IH]; simpl.
  - rewrite Hy. reflexivity.
  - rewrite (Ha c) by (apply elem_of_cons; auto).
    rewrite IH; [reflexivity|].
    intros x Hx. apply Ha. apply elem_of_cons. auto.
Qed.

Lemma span_inv (p : N -> bool) (s a b : jsstring) :
  span p s = (a, b) ->
  s = a ++ b
  /\ (forall x, x ∈ a -> p x = true)
  /\ match b with [] => True | y :: _ => p y = false end.
Proof.
  revert a b. induction s as [|c s IH]; simpl; intros a b H.
  - inversion H. repeat split. intros x Hx. inversion Hx.
  - destruct (p c) eqn:Hc.
    + destruct (span p s) as [a' b'] eqn:Hs. inversion H; subst.
      destruct (IH a' b eq_refl) as (-> & Ha' & Hb). repeat split; [|exact Hb].
      intros x Hx. apply elem_of_cons in Hx as [->|Hx]; auto.
    + inversion H. repeat split; [|exact Hc]. intros x Hx. inversion Hx.
Qed.

Lemma match_key_value_inv (line m1 m2 : jsstring) :
  match_key_value line = Some (m1, m2) ->
  line = m1 ++ EQUALS :: m2 /\ m1 <> [] /\ (EQUALS ∉ m1) /\ one_line m2 = true.
Proof.
  unfold match_key_value.
  destruct (span _ line) as [a b] eqn:Hspan.
  destruct a as [|c k]; [discriminate|]. destruct b as [|e v]; [discriminate|].
  destruct (forallb _ v) eqn:Hv; [|discriminate].
  intros H. inversion H; subst. clear H.
  destruct (span_inv _ _ _ _ Hspan) as (Hline & Hk & He).
  apply negb_false_iff, N.eqb_eq in He. subst e.
  repeat split; auto.
  intros Hin. apply Hk in Hin. discriminate Hin.
Qed.

Lemma match_key_value_app (k v : jsstring) :
  k <> [] -> (EQUALS ∉ k) -> one_line v = true ->
  match_key_value (k ++ EQUALS :: v) = Some (k, v).
Proof.
  intros Hk Heq Hv. unfold match_key_value. rewrite span_app.
  - destruct k; [congruence|]. unfold one_line in Hv. rewrite Hv. reflexivity.
  - intros x Hx. apply negb_true_iff, N.eqb_neq. intros ->. auto.
  - reflexivity.
Qed.

(** *** Quotes *)

Lemma slice_between (q1 q2 : N) (v : jsstring) :
  slice (q1 :: v ++ [q2]) 1 (-1) = v.
Proof.
  unfold slice, slice_index. simpl length. rewrite length_app. simpl length.
  destruct (Z.ltb_spec 1 0) as [|_]; [lia|].
  destruct (Z.ltb_spec (-1) 0) as [_|]; [|lia].
  replace (Z.to_nat (Z.min 1 (Z.of_nat (S (length v + 1))))) with 1%nat by lia.
  replace (Z.to_nat (Z.max (Z.of_nat (S (length v + 1)) + -1) 0
                     - Z.min 1 (Z.of_nat (S (length v + 1))))) with (length v) by lia.
  simpl drop. apply take_app_length.
Qed.

Lemma strip_quotes_quoted (q : N) (v : jsstring) :
  is_quote q = true -> strip_quotes (q :: v ++ [q]) = v.
Proof.
  intros Hq. unfold strip_quotes, endsWith.
  replace (rev (q :: v ++ [q])) with (q :: rev v ++ [q])
    by (simpl; rewrite rev_app_distr; reflexivity).
  simpl startsWith. unfold is_quote in Hq.
  destruct (N.eqb_spec q DQUOTE) as [->|Hd].
  - simpl. apply slice_between.
  - destruct (N.eqb_spec q SQUOTE) as [->|Hs]; [|discriminate Hq].
    simpl. apply slice_between.
Qed.

Lemma strip_quotes_elem (s : jsstring) (x : N) :
  x ∈ strip_quotes s -> x ∈ s.
Proof.
  unfold strip_quotes. destruct (_ || _); [|auto].
  unfold slice. intros H.
  apply (subseteq_take _ _ _) in H. apply (subseteq_drop _ _ _) in H. exact H.
Qed.

Lemma one_line_elem (s : jsstring) :
  one_line s = true <-> forall x, x ∈ s -> is_line_terminator x = false.
Proof.
  unfold one_line. rewrite forallb_forall. split; intros H x Hx.
  - apply negb_true_iff. apply H. apply list_elem_of_In. exact Hx.
  - apply negb_true_iff. apply H. apply list_elem_of_In. exact Hx.
Qed.

(** *** A line that assigns *)

(** A key, an equals sign and a value, each with any white space around
    it: the line sets the key to the value without its quotes. *)
Lemma env_line_assign (config : dict) (ws1 k ws2 ws3 v ws4 : jsstring) :
  blank ws1 = true -> blank ws2 = true -> blank ws3 = true -> blank ws4 = true ->
  one_line ws3 = true ->
  tight k = true -> startsWith k [HASH] = false -> (EQUALS ∉ k) ->
  tight v = true -> one_line v = true ->
  env_line config (ws1 ++ k ++ ws2 ++ EQUALS :: ws3 ++ v ++ ws4)
  = obj_set config k (strip_quotes v).
Proof.
  intros H1 H2 H3 H4 Hl3 Hk Hhash Heq Hv Hlv.
  destruct (tight_inv k Hk) as [(c & k' & Hck & Hc) _].
  destruct (tight_inv v Hv) as [_ (v' & d & Hvd & Hd)].
  assert (Htight : tight (k ++ ws2 ++ EQUALS :: ws3 ++ v) = true).
  { replace (k ++ ws2 ++ EQUALS :: ws3 ++ v)
      with (c :: (k' ++ ws2 ++ EQUALS :: ws3 ++ v') ++ [d])
      by (rewrite Hck, Hvd; simpl; rewrite <- !app_assoc; simpl;
          rewrite <- !app_assoc; reflexivity).
    apply tight_intro; assumption. }
  unfold env_line.
  replace (ws1 ++ k ++ ws2 ++ EQUALS :: ws3 ++ v ++ ws4)
    with (ws1 ++ (k ++ ws2 ++ EQUALS :: ws3 ++ v) ++ ws4)
    by (rewrite <- !app_assoc; simpl; rewrite <- !app_assoc; reflexivity).
  rewrite (trim_padded _ _ _ H1 H4 Htight).
  replace (is_empty (k ++ ws2 ++ EQUALS :: ws3 ++ v)) with false
    by (rewrite Hck; reflexivity).
  replace (startsWith (k ++ ws2 ++ EQUALS :: ws3 ++ v) [HASH]) with false
    by (rewrite Hck in *; simpl in *; congruence).
  simpl orb. cbv iota.
  replace (k ++ ws2 ++ EQUALS :: ws3 ++ v) with ((k ++ ws2) ++ EQUALS :: ws3 ++ v)
    by (rewrite <- app_assoc; reflexivity).
  rewrite match_key_value_app.
  - replace (trim (k ++ ws2)) with k
      by (symmetry; apply (trim_padded [] k ws2); auto).
    replace (trim (ws3 ++ v)) with v
      by (symmetry; rewrite <- (app_nil_r v) at 1;
          apply (trim_padded ws3 v []); auto).
    reflexivity.
  - rewrite Hck. discriminate.
  - intros Hin. apply elem_of_app in Hin as [Hin|Hin]; [auto|].
    unfold blank in H2. rewrite forallb_forall in H2.
    apply list_elem_of_In, H2 in Hin. discriminate Hin.
  - unfold one_line in *. rewrite forallb_app, Hl3, Hlv. reflexivity.
Qed.

Lemma plain_key_inv (k : jsstring) :
  plain_key k = true ->
  tight k = true /\ startsWith k [HASH] = false /\ (EQUALS ∉ k) /\ (LF ∉ k)
  /\ k <> u "__proto__".
Proof.
  unfold plain_key. intros H.
  apply andb_prop in H as [H Hproto]. apply andb_prop in H as [H Hall].
  apply andb_prop in H as [Htight Hhash].
  apply negb_true_iff in Hhash, Hproto.
  rewrite forallb_forall in Hall.
  repeat split; auto.
  - intros Hin. apply list_elem_of_In, Hall in Hin. discriminate Hin.
  - intros Hin. apply list_elem_of_In, Hall in Hin.
    rewrite andb_comm in Hin. discriminate Hin.
  - intros ->. discriminate Hproto.
Qed.

Lemma obj_set_lookup (config : dict) (k v : jsstring) :
  k <> u "__proto__" -> obj_set config k v !! k = Some v.
Proof.
  intros Hk. unfold obj_set, JS.eqb. rewrite bool_decide_eq_false_2 by exact Hk.
  apply lookup_insert_eq.
Qed.

(** X1. For a key without [=] that does not begin with [#], and a value
    on one line, neither of them empty or with white space at its ends:
    white space before the key, between the key and the [=], after the
    value, and white space without line terminators between the [=] and
    the value change nothing. The padded line sets the key to the value,
    without its quotes, as the bare line does. The value may hold an
    [=]. *)
Theorem padding_ignored (config : dict) (ws1 k ws2 ws3 v ws4 : jsstring) :
  blank ws1 = true -> blank ws2 = true -> blank ws3 = true -> blank ws4 = true ->
  one_line ws3 = true ->
  tight k = true -> startsWith k [HASH] = false -> (EQUALS ∉ k) ->
  tight v = true -> one_line v = true ->
  env_line config (ws1 ++ k ++ ws2 ++ EQUALS :: ws3 ++ v ++ ws4)
  = env_line config (k ++ EQUALS :: v)
  /\ env_line config (k ++ EQUALS :: v) = obj_set config k (strip_quotes v).
Proof.
  intros H1 H2 H3 H4 Hl3 Hk Hhash Heq Hv Hlv.
  rewrite (env_line_assign config ws1 k ws2 ws3 v ws4) by assumption.
  pose proof (env_line_assign config [] k [] [] v []) as H.
  simpl in H. rewrite app_nil_r in H. rewrite H by auto.
  split; reflexivity.
Qed.

Lemma padding_ignored_witness :
  env_line ∅ (u "  DSN  =  a=b c " ++ [CR]) = env_line ∅ (u "DSN=a=b c")
  /\ env_line ∅ (u "DSN=a=b c") = {[ u "DSN" := u "a=b c" ]}.
Proof.
  apply (padding_ignored ∅ (u "  ") (u "DSN") (u "  ") (u "  ") (u "a=b c")
           (u " " ++ [CR])); try reflexivity; by_computation.
Defined.

(** X2. A value without line terminators, written between two double
    quotes or two single quotes on the last line of the file, is read back
    exactly, white space included, whatever the lines before it are; the
    key is a plain one (not empty, no white space at its ends, not
    beginning with [#], without [=] and newline, not [__proto__]). *)
Theorem quoted_value_read_back (pre k v : jsstring) (q : N) :
  plain_key k = true -> one_line v = true -> is_quote q = true ->
  parse_env (pre ++ LF :: k ++ EQUALS :: q :: v ++ [q]) !! k = Some v.
Proof.
  intros Hk Hv Hq.
  destruct (plain_key_inv k Hk) as (Htight & Hhash & Heq & Hlf & Hproto).
  assert (Hqs : is_space q = false).
  { unfold is_quote in Hq. apply orb_prop in Hq as [Hq|Hq];
      apply N.eqb_eq in Hq; subst q; reflexivity. }
  assert (Hqt : is_line_terminator q = false).
  { unfold is_quote in Hq. apply orb_prop in Hq as [Hq|Hq];
      apply N.eqb_eq in Hq; subst q; reflexivity. }
  rewrite parse_env_last_line.
  - pose proof (env_line_assign (fold_left env_line (split LF pre) ∅)
                  [] k [] [] (q :: v ++ [q]) []) as H.
    simpl in H. rewrite app_nil_r in H. rewrite H; auto.
    + rewrite (strip_quotes_quoted q v Hq). apply obj_set_lookup. exact Hproto.
    + apply tight_intro; assumption.
    + unfold one_line in *. rewrite forallb_app, Hv. simpl. rewrite Hqt. reflexivity.
  - intros Hin. apply elem_of_app in Hin as [Hin|Hin]; [auto|].
    apply elem_of_cons in Hin as [Hin|Hin]; [discriminate Hin|].
    apply elem_of_cons in Hin as [Hin|Hin]; [subst q; discriminate Hqt|].
    apply elem_of_app in Hin as [Hin|Hin].
    + pose proof (proj1 (one_line_elem v) Hv _ Hin) as Hx. discriminate Hx.
    + apply list_elem_of_singleton in Hin. subst q. discriminate Hqt.
Qed.

Lemma quoted_value_read_back_witness :
  parse_env (u "TZ=UTC" ++ LF :: u "TZ" ++ EQUALS :: SQUOTE :: u " Asia/Shanghai " ++ [SQUOTE])
  !! u "TZ" = Some (u " Asia/Shanghai ").
Proof.
  apply (quoted_value_read_back (u "TZ=UTC") (u "TZ") (u " Asia/Shanghai ") SQUOTE);
    reflexivity.
Defined.

(** *** What a loaded configuration holds *)

Lemma split_by_pieces (sep : N -> bool) (s piece : jsstring) (x : N) :
  piece ∈ split_by sep s -> x ∈ piece -> sep x = false.
Proof.
  revert piece. induction s as [|c s IH]; simpl; intros piece Hp Hx.
  - apply list_elem_of_singleton in Hp. subst piece. inversion Hx.
  - destruct (sep c) eqn:Hc.
    + apply elem_of_cons in Hp as [->|Hp]; [inversion Hx|eauto].
    + destruct (split_by_cons sep s) as (p0 & ps & Hs). rewrite Hs in *.
      apply elem_of_cons in Hp as [->|Hp].
      * apply elem_of_cons in Hx as [->|Hx]; [exact Hc|].
        apply (IH p0); [apply elem_of_cons; auto | exact Hx].
      * apply (IH piece); [apply elem_of_cons; auto | exact Hx].
Qed.

Lemma env_line_entry (config : dict) (line k v : jsstring) :
  (LF ∉ line) ->
  env_line config line !! k = Some v ->
  config !! k = Some v \/ (plain_key k = true /\ one_line v = true).
Proof.
  intros Hlf. unfold env_line.
  destruct (is_empty (trim line) || startsWith (trim line) [HASH]) eqn:Hskip;
    [auto|].
  destruct (match_key_value (trim line)) as [[m1 m2]|] eqn:Hm; [|auto].
  apply orb_false_elim in Hskip as [Hne Hhash].
  destruct (match_key_value_inv _ _ _ Hm) as (Hline & Hm1 & Heq & Hm2).
  unfold obj_set, JS.eqb. case_bool_decide as Hproto; [auto|].
  intros Hlookup. rewrite lookup_insert in Hlookup.
  case_decide as Hk; [|auto]. right. inversion Hlookup. subst k. clear Hlookup.
  destruct m1 as [|c m1']; [congruence|].
  assert (Hc : is_space c = false).
  { destruct (trim_tight line) as [He|Ht]; [rewrite He in Hne; discriminate|].
    destruct (tight_inv _ Ht) as [(c' & t & Hct & Hc') _].
    rewrite Hline in Hct. inversion Hct. subst. exact Hc'. }
  split.
  - unfold plain_key. repeat (apply andb_true_intro; split).
    + destruct (trim_tight (c :: m1')) as [He|Ht]; [|exact Ht].
      rewrite (trim_cons c m1' Hc) in He. discriminate He.
    + rewrite (trim_cons c m1' Hc). rewrite Hline in Hhash.
      apply negb_true_iff. exact Hhash.
    + apply forallb_forall. intros x Hx.
      apply list_elem_of_In, trim_elem in Hx.
      apply andb_true_intro. split; apply negb_true_iff, N.eqb_neq; intros ->.
      * auto.
      * apply Hlf. apply trim_elem. rewrite Hline. apply elem_of_app. auto.
    + apply negb_true_iff. apply bool_decide_eq_false_2. exact Hproto.
  - apply one_line_elem. intros x Hx.
    apply strip_quotes_elem, trim_elem in Hx.
    exact (proj1 (one_line_elem m2) Hm2 x Hx).
Qed.

Lemma fold_env_line_entries (lines : list jsstring) (config : dict) :
  (forall line, line ∈ lines -> LF ∉ line) ->
  (forall k v, config !! k = Some v -> plain_key k = true /\ one_line v = true) ->
  forall k v, fold_left env_line lines config !! k = Some v ->
              plain_key k = true /\ one_line v = true.
Proof.
  revert config. induction lines as [|line lines IH]; simpl; intros config Hl Hc.
  - exact Hc.
  - apply IH.
    + intros l Hin. apply Hl. apply elem_of_cons. auto.
    + intros k v Hkv.
      destruct (env_line_entry config line k v) as [H|H]; auto.
      apply Hl. apply elem_of_cons. auto.
Qed.

(** X3. Whatever the file holds, every key of the loaded configuration
    is non-empty, has no white space at either end, does not begin with
    [#], holds no [=] and no newline and is not [__proto__]; every value is
    free of line terminators. *)
Theorem parse_env_entries (envContent k v : jsstring) :
  parse_env envContent !! k = Some v ->
  plain_key k = true /\ one_line v = true.
Proof.
  unfold parse_env. apply fold_env_line_entries.
  - intros line Hin Hlf.
    pose proof (split_by_pieces (N.eqb LF) envContent line LF Hin Hlf) as H.
    discriminate H.
  - intros k' v' H. rewrite lookup_empty in H. discriminate H.
Qed.

Lemma parse_env_entries_witness :
  plain_key (u "PORT") = true /\ one_line (u "8080") = true.
Proof.
  apply (parse_env_entries demo_env_file (u "PORT") (u "8080")).
  vm_compute. reflexivity.
Defined.

(** *** Runs of the launcher *)

Lemma script_cases (h : Host) :
  (files_in_place h = false
   /\ snd (script h) = Exit 1
   /\ spawns (script h) = [] /\ kills (fst (script h)) = [])
  \/ (files_in_place h = true
      /\ snd (script h) = Continue tt
      /\ kills (fst (script h)) = []
      /\ exists name,
           ExecutableLocator (process_platform h) (process_arch h) = Some name
           /\ spawns (script h)
              = [Spawn (join h (dirname h) name)
                   (parse_env (readFileSync h (join h (dirname h) (u ".env")))
                    ∪ process_env h)]).
Proof.
  unfold files_in_place, spawns, script, loadEnv.
  destruct (existsSync h (join h (dirname h) (u ".env")));
    [|left; repeat split; reflexivity].
  rewrite getExecutablePath_locator.
  destruct (ExecutableLocator _ _) as [name|];
    [destruct (existsSync h (join h (dirname h) name))|].
  - right. repeat split; try reflexivity. exists name. split; reflexivity.
  - left. repeat split; reflexivity.
  - left. repeat split; reflexivity.
Qed.

(** X4. The script spawns only with everything in place. When the
    configuration file does not exist, or the platform or the architecture
    of the host is missing from its lookup table, or the executable does
    not exist, the script exits with status 1 and spawns nothing. When the
    script gets through, everything was in place and it has spawned
    exactly once. *)
Theorem spawn_needs_files_in_place (h : Host) :
  (files_in_place h = false ->
   exit_status (script h) = Some 1%Z /\ spawns (script h) = [])
  /\ (exit_status (script h) = None ->
      files_in_place h = true /\ length (spawns (script h)) = 1%nat).
Proof.
  unfold exit_status.
  destruct (script_cases h) as [(-> & -> & -> & _)|(-> & -> & _ & name & _ & ->)].
  - split; [intros _; split; reflexivity | discriminate].
  - split; [discriminate | intros _; split; reflexivity].
Qed.

Lemma spawn_needs_files_in_place_witness :
  exit_status (script no_exe_host) = Some 1%Z /\ spawns (script no_exe_host) = [].
Proof.
  apply (proj1 (spawn_needs_files_in_place no_exe_host)). vm_compute. reflexivity.
Defined.

(** X5. When the script gets through, the child is the executable of
    the host in the script's directory, and its environment is the
    configuration laid over [process.env]: a key of the file has the file's
    value, every other key has the value of [process.env]. *)
Theorem child_environment (h : Host) :
  exit_status (script h) = None ->
  exists (name : jsstring) (env : dict),
    ExecutableLocator (process_platform h) (process_arch h) = Some name
    /\ spawns (script h) = [Spawn (join h (dirname h) name) env]
    /\ forall k : jsstring,
         env !! k
         = match parse_env (readFileSync h (join h (dirname h) (u ".env"))) !! k with
           | Some v => Some v
           | None => process_env h !! k
           end.
Proof.
  unfold exit_status.
  destruct (script_cases h) as [(_ & -> & _)|(_ & _ & _ & name & Hname & Hspawn)];
    [discriminate|].
  intros _. eexists name, _. split; [exact Hname|]. split; [exact Hspawn|].
  intros k. rewrite lookup_union.
  destruct (parse_env _ !! k), (process_env h !! k); reflexivity.
Qed.

Lemma child_environment_witness :
  exists (name : jsstring) (env : dict),
    ExecutableLocator Linux X64 = Some name
    /\ spawns (script linux_host)
       = [Spawn (join linux_host (dirname linux_host) name) env]
    /\ env !! u "PORT" = Some (u "8080")
    /\ env !! u "PATH" = Some (u "/usr/bin").
Proof.
  destruct (child_environment linux_host) as (name & env & Hname & Hspawn & Henv);
    [vm_compute; reflexivity|].
  exists name, env. split; [exact Hname|]. split; [exact Hspawn|].
  split; rewrite Henv; vm_compute; reflexivity.
Defined.

Lemma kills_app (a b : list event) : kills (a ++ b) = kills a ++ kills b.
Proof.
  induction a as [|e a IH]; simpl; [reflexivity|].
  destruct e; simpl; rewrite ?IH; reflexivity.
Qed.

Lemma event_loop_signals (sigs : list LoopEvent) :
  forallb is_signal sigs = true ->
  snd (event_loop sigs) = Continue tt
  /\ kills (fst (event_loop sigs)) = flat_map forwarded sigs.
Proof.
  induction sigs as [|e sigs IH]; intros H; [split; reflexivity|].
  simpl in H. apply andb_prop in H as [He H]. destruct (IH H) as [IHs IHk].
  destruct e; try discriminate He; simpl;
    destruct (event_loop sigs) as [t r]; simpl in *; subst;
    rewrite IHk; split; reflexivity.
Qed.

(** X6. While the child runs, every SIGINT and SIGTERM the launcher
    receives is sent on to the child, the same signal in the same order,
    and the launcher itself keeps running. *)
Theorem signals_forwarded (h : Host) (sigs : list LoopEvent) :
  exit_status (script h) = None ->
  forallb is_signal sigs = true ->
  exit_status (main h sigs) = None
  /\ kills (fst (main h sigs)) = flat_map forwarded sigs.
Proof.
  intros Hscript Hsigs. unfold exit_status, main in *.
  destruct (script_cases h) as [(_ & Hs & _)|(_ & Hs & Hk & _)];
    [rewrite Hs in Hscript; discriminate|].
  destruct (event_loop_signals sigs Hsigs) as [Hl Hlk].
  destruct (script h) as [t r]. simpl in Hs, Hk. subst r. simpl.
  destruct (event_loop sigs) as [t' r']. simpl in *. subst r'.
  rewrite kills_app, Hk, Hlk. split; reflexivity.
Qed.

Lemma signals_forwarded_witness :
  exit_status (main linux_host [ProcessSIGINT; ProcessSIGTERM; ProcessSIGINT]) = None
  /\ kills (fst (main linux_host [ProcessSIGINT; ProcessSIGTERM; ProcessSIGINT]))
     = [u "SIGINT"; u "SIGTERM"; u "SIGINT"].
Proof.
  apply (signals_forwarded linux_host [ProcessSIGINT; ProcessSIGTERM; ProcessSIGINT]);
    vm_compute; reflexivity.
Defined.

Lemma event_loop_error (pre post : list LoopEvent) (message : jsstring) :
  forallb is_signal pre = true ->
  snd (event_loop (pre ++ ChildError message :: post)) = Exit 1.
Proof.
  induction pre as [|e pre IH]; intros Hpre; [reflexivity|].
  simpl in Hpre. apply andb_prop in Hpre as [He Hpre]. specialize (IH Hpre).
  destruct e; try discriminate He; simpl;
    destruct (event_loop (pre ++ ChildError message :: post));
    simpl in *; subst; reflexivity.
Qed.

(** X7. When the child cannot be started, the launcher exits with
    status 1, whatever signals it received before. *)
Theorem spawn_failure_exits (h : Host) (pre post : list LoopEvent)
    (message : jsstring) :
  exit_status (script h) = None ->
  forallb is_signal pre = true ->
  exit_status (main h (pre ++ ChildError message :: post)) = Some 1%Z.
Proof.
  intros Hscript Hpre. unfold exit_status, main in *.
  destruct (script h) as [t [[]|c]]; [|discriminate Hscript].
  pose proof (event_loop_error pre post message Hpre) as Hloop.
  simpl. destruct (event_loop _) as [t' r]. simpl in *. subst r. reflexivity.
Qed.

Lemma spawn_failure_exits_witness :
  exit_status (main linux_host [ProcessSIGINT; ChildError (u "spawn EACCES")])
  = Some 1%Z.
Proof.
  apply (spawn_failure_exits linux_host [ProcessSIGINT] [] (u "spawn EACCES"));
    vm_compute; reflexivity.
Defined.

Lemma event_loop_stops (pre post : list LoopEvent) (e : LoopEvent) :
  is_signal e = false ->
  event_loop (pre ++ e :: post) = event_loop (pre ++ [e]).
Proof.
  intros He. induction pre as [|x pre IH].
  - destruct e as [message|code signal| |]; try discriminate He; simpl.
    + reflexivity.
    + destruct code, signal; reflexivity.
  - simpl. rewrite IH. reflexivity.
Qed.

(** X8. The launcher is over with the first ['exit'] or ['error'] event
    of the child: what the event loop delivers after it changes neither
    the exit status nor the trace, so that no signal is sent to a child
    that has ended. *)
Theorem nothing_after_the_end (h : Host) (pre post : list LoopEvent)
    (e : LoopEvent) :
  is_signal e = false ->
  main h (pre ++ e :: post) = main h (pre ++ [e]).
Proof.
  intros He. unfold main. rewrite (event_loop_stops pre post e He). reflexivity.
Qed.

Lemma nothing_after_the_end_witness :
  main linux_host ([ProcessSIGINT] ++ ChildExit (Some 0%Z) None :: [ProcessSIGTERM])
  = main linux_host ([ProcessSIGINT] ++ [ChildExit (Some 0%Z) None]).
Proof.
  apply (nothing_after_the_end linux_host [ProcessSIGINT] [ProcessSIGTERM]).
  reflexivity.
Defined.

(** X9. On every supported host the file the launcher looks for bears
    the name [buildBackend] gives the artifact of that host. *)
Theorem launcher_looks_for_build_artifact (p : Platform) (a : Arch)
    (name : jsstring) :
  ExecutableLocator p a = Some name ->
  name = Build.binaryName_of (Build.goos_of (platform_name p))
                             (Build.goarch_of (arch_name a)).
Proof.
  destruct p, a; vm_compute; intros H; congruence.
Qed.

Lemma launcher_looks_for_build_artifact_witness :
  u "new-api-darwin-arm64"
  = Build.binaryName_of (Build.goos_of (platform_name Darwin))
                        (Build.goarch_of (arch_name Arm64)).
Proof.
  apply (launcher_looks_for_build_artifact Darwin Arm64). vm_compute. reflexivity.
Defined.

End LauncherExtras.

(* ===================================================================== *)
(** ** More on the build script *)
(* ===================================================================== *)

Module BuildExtras.
Import Build JSFacts BuildSteps BuildProofs.

(** *** The small steps *)

Section SmallSteps.

Context (h : Host).

Lemma checkCommand_go_post (w : W h) :
  post (checkCommand h (u "go")) w (fun r w1 e1 =>
    e1 = [ExecSync (which_go h) no_options]
    /\ r = Returned match fst (execSync h (which_go h) no_options w) with
                    | Some _ => true
                    | None => false
                    end).
Proof.
  unfold checkCommand, which_go. walk.
  destruct (is_win32 h); split; reflexivity.
Qed.

Lemma getVersion_post (w : W h) :
  post (getVersion h) w (fun r w1 e1 =>
    (exists version : jsstring, r = Returned version)
    /\ spawned e1 = [] /\ written e1 = [] /\ made e1 = []).
Proof. unfold getVersion. walk; repeat split; eauto. Qed.

Lemma execGoWithProgress_post (cmd : jsstring) (options : Options) (w : W h) :
  post (execGoWithProgress h cmd options) w (fun r w1 e1 =>
    spawned e1 = [(cmd, spawn_options h options)]
    /\ executed e1 = [] /\ written e1 = [] /\ made e1 = []).
Proof.
  unfold execGoWithProgress. walk; [|settle; repeat split].
  destruct (run_activity go_on_activity Runner_new _) as [r out].
  destruct (run_ending go_on_close on_error r _) as [out' resolved].
  walk. settle. repeat split.
Qed.

End SmallSteps.

(** *** [buildBackend] *)

Section Backend.

Context (h : Host).

Lemma buildBackend_needs_go_post (targetOS : Platform) (targetArch : Arch)
    (w : W h) :
  fst (execSync h (which_go h) no_options w) = None ->
  post (buildBackend h targetOS targetArch) w (fun r w1 e1 =>
    r = Returned false
    /\ executed e1 = [(which_go h, no_options)]
    /\ spawned e1 = [] /\ made e1 = [] /\ written e1 = []).
Proof.
  intros Hgo. unfold buildBackend, buildBackend_body. walk.
  walk_with checkCommand_go_post as r w1 e1 [-> ->].
  rewrite Hgo. cbv beta iota delta [negb].
  walk. settle. repeat split.
Qed.

(** X10. When Go is not found, [buildBackend] returns [false] after the
    look-up alone: it has created no directory and spawned no child. *)
Theorem buildBackend_needs_go (targetOS : Platform) (targetArch : Arch) (w : W h) :
  fst (execSync h (which_go h) no_options w) = None ->
  value (buildBackend h targetOS targetArch w) = Returned false
  /\ executed (events (buildBackend h targetOS targetArch w))
     = [(which_go h, no_options)]
  /\ spawned (events (buildBackend h targetOS targetArch w)) = []
  /\ made (events (buildBackend h targetOS targetArch w)) = []
  /\ written (events (buildBackend h targetOS targetArch w)) = [].
Proof. exact (buildBackend_needs_go_post targetOS targetArch w). Qed.

(** Close a branch: the children are those the hypotheses list. *)
Ltac children_leaf version :=
  lazymatch goal with |- ex _ => idtac end;
  exists version; project;
  repeat match goal with
         | H : spawned ?e = _ |- _ => rewrite H; clear H
         end;
  unfold go_tidy, go_build, go_build_cmd, go_build_env, go_env, artifact_name,
    spawn_options;
  cbn [from_option id opt_cwd opt_env];
  settle; split; [auto | try discriminate; auto].

Lemma buildBackend_children_post (targetOS : Platform) (targetArch : Arch)
    (w : W h) :
  post (buildBackend h targetOS targetArch) w (fun r w' e =>
    exists version : jsstring,
      (spawned e = []
       \/ spawned e = [go_tidy h]
       \/ spawned e = [go_tidy h; go_build h targetOS targetArch version])
      /\ (r = Returned true ->
          spawned e = [go_tidy h; go_build h targetOS targetArch version])).
Proof.
  unfold buildBackend, buildBackend_body. cbv zeta. walk.
  walk_with checkCommand_go_post as r w1 e1 [-> ->]. cbv beta iota.
  walk; try solve [children_leaf (@nil N)].
  all: walk_with getVersion_post as r2 w2 e2 ((version & ->) & Hversion & _).
  all: cbv beta iota; walk; try solve [children_leaf version].
  all: walk_with execGoWithProgress_post as tidied w3 e3 (Htidy & _).
  all: destruct tidied as [tidied|]; walk; try solve [children_leaf version].
  all: walk_with execGoWithProgress_post as compiled w4 e4 (Hbuild & _).
  all: destruct compiled as [compiled|]; walk; children_leaf version.
Qed.

(** X11. [buildBackend] calls [spawn] at most twice, for [go mod tidy]
    and then for [go build], both in the root directory and with the
    mirror settings laid over [process.env]; [go build] also gets the
    target as GOOS and GOARCH and CGO_ENABLED=0, and writes to the artifact
    of the target in the output directory. When [buildBackend] returns
    [true] it has spawned both. *)
Theorem buildBackend_children (targetOS : Platform) (targetArch : Arch) (w : W h) :
  exists version : jsstring,
    let children := spawned (events (buildBackend h targetOS targetArch w)) in
    (children = []
     \/ children = [go_tidy h]
     \/ children = [go_tidy h; go_build h targetOS targetArch version])
    /\ (value (buildBackend h targetOS targetArch w) = Returned true ->
        children = [go_tidy h; go_build h targetOS targetArch version]).
Proof. exact (buildBackend_children_post targetOS targetArch w). Qed.

End Backend.

Example go_build_windows :
  env (snd (go_build demo_host Win32 Arm64 (u "v1.2.3"))) !! u "GOOS"
  = Some (u "windows")
  /\ fst (go_build demo_host Win32 Arm64 (u "v1.2.3"))
     = u "go build -o " ++ [DQUOTE] ++ u "/repo/_build/new-api-windows-arm64.exe"
       ++ [DQUOTE] ++ u " -ldflags " ++ [DQUOTE]
       ++ u "-w -s -X 'one-api/common.Version=v1.2.3'" ++ [DQUOTE].
Proof. split; vm_compute; reflexivity. Qed.

Lemma buildBackend_needs_go_witness :
  value (buildBackend demo_host Linux X64 bare_world) = Returned false
  /\ executed (events (buildBackend demo_host Linux X64 bare_world))
     = [(which_go demo_host, no_options)]
  /\ spawned (events (buildBackend demo_host Linux X64 bare_world)) = []
  /\ made (events (buildBackend demo_host Linux X64 bare_world)) = []
  /\ written (events (buildBackend demo_host Linux X64 bare_world)) = [].
Proof.
  apply (buildBackend_needs_go demo_host Linux X64 bare_world). reflexivity.
Defined.

End BuildExtras.
